(** * Spam Guard: the TF-IDF Naive Bayes classifier

    A shallow embedding of the class [TfIdfNaiveBayes] of the background
    script, and the properties of its tokenizer, feature extractor, trainer,
    predictor and snapshot functions.

    Conventions of the embedding.
    - A JavaScript string is a [string]; each [ascii] stands for one code
      unit below 256 (the Latin-1 range), so the CJK range of the tokenizer's
      character filter is never hit.
    - A property that may be [undefined] is an [option].
    - A JavaScript [Map] is an insertion-ordered association list
      ([JsMap.t]); [set] overwrites in place or appends, as [Map.set] does.
    - Counters are integers ([Z]); the smoothing constant and everything
      computed by [predict] are real numbers ([R]), that is, the arithmetic of
      the source without rounding. *)

From Stdlib Require Import String Ascii List Bool ZArith Lia Reals Lra.
From Stdlib Require Import Permutation Sorted.
Import ListNotations.

Local Open Scope string_scope.
Local Open Scope list_scope.

(** ** Characters and regular-expression classes *)

Definition code (c : ascii) : N := N_of_ascii c.

Definition between (lo hi : N) (c : ascii) : bool :=
  (lo <=? code c)%N && (code c <=? hi)%N.

(** [\s] restricted to code units below 256. *)
Definition isSpace (c : ascii) : bool :=
  between 9 13 c || (code c =? 32)%N || (code c =? 160)%N.

(** [\w] is [A-Za-z0-9_]. *)
Definition isWord (c : ascii) : bool :=
  between 65 90 c || between 97 122 c || between 48 57 c || (code c =? 95)%N.

(** The class [[\w.-]]. *)
Definition isWordDotDash (c : ascii) : bool :=
  isWord c || (code c =? 46)%N || (code c =? 45)%N.

(** The class kept by the last filter of [tokenize]: [[\w@.-]]. *)
Definition isKept (c : ascii) : bool :=
  isWordDotDash c || (code c =? 64)%N.

Definition isChar (n : N) (c : ascii) : bool := (code c =? n)%N.

(** [String.prototype.toLowerCase] on one code unit below 256. *)
Definition lowerChar (c : ascii) : ascii :=
  if between 65 90 c
     || (between 192 222 c && negb (code c =? 215)%N)
  then ascii_of_N (code c + 32)
  else c.

Definition toLowerCase (s : list ascii) : list ascii := map lowerChar s.

(** ** Lists of characters *)

Fixpoint takeWhile (p : ascii -> bool) (l : list ascii) : list ascii :=
  match l with
  | c :: r => if p c then c :: takeWhile p r else []
  | [] => []
  end.

Fixpoint dropPrefix (pre l : list ascii) : option (list ascii) :=
  match pre, l with
  | [], _ => Some l
  | p :: pre', c :: l' =>
      if Ascii.eqb p c then dropPrefix pre' l' else None
  | _ :: _, [] => None
  end.

(** Position of the first character satisfying [p]. *)
Fixpoint indexOf (p : ascii -> bool) (l : list ascii) : option nat :=
  match l with
  | [] => None
  | c :: r => if p c then Some O else option_map S (indexOf p r)
  end.

Definition chars (s : string) : list ascii := list_ascii_of_string s.
Definition str (l : list ascii) : string := string_of_list_ascii l.

(** ** Global regular-expression replacement

    [text.replace(/re/g, repl)]: scan from the left; where the expression
    matches, emit the replacement and resume after the match; elsewhere copy
    one character.  A matcher returns the length of the match found at the
    head of its argument (never 0 for the three expressions used) and the
    text replacing it.  [skip] counts the characters of the current match
    still to be consumed. *)

Definition matcher := list ascii -> option (nat * list ascii).

Fixpoint replaceAll (m : matcher) (skip : nat) (l : list ascii) : list ascii :=
  match l with
  | [] => []
  | c :: r =>
      match skip with
      | S k => replaceAll m k r
      | O =>
          match m l with
          | Some (n, repl) => repl ++ replaceAll m (pred n) r
          | None => c :: replaceAll m O r
          end
      end
  end.

Definition space : list ascii := chars " ".

(** [/<[^>]*>/]: a [<], then everything up to the next [>]. *)
Definition matchTag : matcher := fun l =>
  match l with
  | c :: r =>
      if isChar 60 c
      then match indexOf (isChar 62) r with
           | Some i => Some (i + 2, space)
           | None => None
           end
      else None
  | [] => None
  end.

(** [/https?:\/\/([^\s\/]+)[^\s]*/] replaced by [' $1 ']. *)
Definition matchUrl : matcher := fun l =>
  match dropPrefix (chars "http") l with
  | None => None
  | Some r =>
      let '(scheme, r1) :=
        match r with
        | c :: r' => if isChar 115 c then (5, r') else (4, r)
        | [] => (4, r)
        end in
      match dropPrefix (chars "://") r1 with
      | None => None
      | Some r2 =>
          let host := takeWhile (fun c => negb (isSpace c || isChar 47 c)) r2 in
          let rest := takeWhile (fun c => negb (isSpace c)) (skipn (length host) r2) in
          match host with
          | [] => None
          | _ :: _ =>
              Some (scheme + 3 + length host + length rest,
                    space ++ host ++ space)
          end
      end
  end.

(** [/[\w.-]+@([\w.-]+)/] replaced by [' $1 ']. *)
Definition matchEmail : matcher := fun l =>
  let loc := takeWhile isWordDotDash l in
  match loc, skipn (length loc) l with
  | _ :: _, c :: r =>
      if isChar 64 c
      then match takeWhile isWordDotDash r with
           | [] => None
           | (_ :: _) as dom =>
               Some (length loc + 1 + length dom, space ++ dom ++ space)
           end
      else None
  | _, _ => None
  end.

(** [text.replace(/[^\w\u4e00-\u9fff@.-]/g, ' ')]: the CJK range lies above
    code unit 255. *)
Definition keepTokenChars (l : list ascii) : list ascii :=
  map (fun c => if isKept c then c else " "%char) l.

(** [text.split(/\s+/)] followed by [filter(w => w.length > 1)]: the empty
    strings that [split] produces at the ends are dropped by the filter, so
    the result is the list of maximal runs of non-space characters that are
    longer than one character.  [cur] is the run being read, reversed. *)
Fixpoint splitWords (cur : list ascii) (l : list ascii) : list (list ascii) :=
  match l with
  | [] => [rev cur]
  | c :: r =>
      if isSpace c then rev cur :: splitWords [] r
      else splitWords (c :: cur) r
  end.

Definition longerThanOne (w : list ascii) : bool := (1 <? length w)%nat.

Definition truthy (text : option string) : bool :=
  match text with
  | None => false
  | Some s => negb (String.eqb s "")
  end.

(** ** [tokenize] *)

Definition tokenize (text : option string) : list string :=
  if negb (truthy text) then []
  else
    match text with
    | None => []
    | Some s =>
        let t := toLowerCase (chars s) in
        let t := replaceAll matchTag O t in
        let t := replaceAll matchUrl O t in
        let t := replaceAll matchEmail O t in
        let t := keepTokenChars t in
        map str (filter longerThanOne (splitWords [] t))
    end.

(** ** [extractFeatures] *)

Module Email.
Record t : Type := make {
  senderName : option string;
  senderEmail : option string;
  subject : option string;
  body : option string
}.
End Email.

Definition prefixed (p : string) (tokens : list string) : list string :=
  map (String.append p) tokens.

(** [senderEmail.match(/@([\w.-]+)/)]: the group of the leftmost match. *)
Fixpoint emailMatch (l : list ascii) : option (list ascii) :=
  match l with
  | [] => None
  | c :: r =>
      if isChar 64 c
      then match takeWhile isWordDotDash r with
           | [] => emailMatch r
           | (_ :: _) as dom => Some dom
           end
      else emailMatch r
  end.

(** [domain.split('.').pop()]: what follows the last dot.  [cur] is the
    segment being read, reversed. *)
Fixpoint lastLabel (cur : list ascii) (l : list ascii) : list ascii :=
  match l with
  | [] => rev cur
  | c :: r => if isChar 46 c then lastLabel [] r else lastLabel (c :: cur) r
  end.

Definition nameFeatures (e : Email.t) : list string :=
  if truthy (Email.senderName e)
  then prefixed "name_" (tokenize (Email.senderName e))
  else [].

Definition emailFeatures (e : Email.t) : list string :=
  match Email.senderEmail e with
  | None => []
  | Some s =>
      if truthy (Some s)
      then match emailMatch (chars s) with
           | Some dom =>
               [String.append "domain_" (str (toLowerCase dom));
                String.append "tld_" (str (lastLabel [] dom))]
           | None => []
           end
      else []
  end.

Definition subjectFeatures (e : Email.t) : list string :=
  if truthy (Email.subject e)
  then let subjectTokens := tokenize (Email.subject e) in
       prefixed "subj_" subjectTokens ++ subjectTokens
  else [].

Definition bodyFeatures (e : Email.t) : list string :=
  if truthy (Email.body e) then tokenize (Email.body e) else [].

(** The four blocks push onto one array, in this order. *)
Definition extractFeatures (emailData : Email.t) : list string :=
  (((([] ++ nameFeatures emailData)
        ++ emailFeatures emailData)
        ++ subjectFeatures emailData)
        ++ bodyFeatures emailData).

(** ** JavaScript [Map] and [Set]: insertion-ordered containers *)

Module JsMap.
Section Ops.
Context {V : Type}.

Definition t := list (string * V).

Definition empty : t := [].

Fixpoint get (k : string) (m : t) : option V :=
  match m with
  | [] => None
  | (k', v) :: r => if String.eqb k k' then Some v else get k r
  end.

Definition has (k : string) (m : t) : bool :=
  match get k m with Some _ => true | None => false end.

(** [Map.set]: an existing key keeps its position. *)
Fixpoint set (k : string) (v : V) (m : t) : t :=
  match m with
  | [] => [(k, v)]
  | (k', v') :: r =>
      if String.eqb k k' then (k', v) :: r else (k', v') :: set k v r
  end.

Definition size (m : t) : Z := Z.of_nat (length m).

(** [Array.from(m.entries())]. *)
Definition entries (m : t) : list (string * V) := m.

(** [new Map(entries)]. *)
Definition ofEntries (l : list (string * V)) : t :=
  fold_left (fun m kv => set (fst kv) (snd kv) m) l empty.

Definition keys (m : t) : list string := map fst m.

End Ops.
Arguments t : clear implicits.
End JsMap.

(** [new Set(features)], iterated: the distinct elements in the order of
    their first occurrence. *)
Definition memb (w : string) (l : list string) : bool :=
  existsb (String.eqb w) l.

Definition setAdd (s : list string) (w : string) : list string :=
  if memb w s then s else s ++ [w].

Definition newSet (features : list string) : list string :=
  fold_left setAdd features [].

(** [m.get(k) || 0] *)
Definition getOr0 (k : string) (m : JsMap.t Z) : Z :=
  match JsMap.get k m with
  | Some v => v
  | None => 0%Z
  end.

(** ** The model *)

Inductive label : Type := Spam | Ham.

(** An object [{ spam: ..., ham: ... }]. *)
Record perClass (A : Type) : Type := PerClass { spam : A; ham : A }.
Arguments PerClass {A} _ _.
Arguments spam {A} _.
Arguments ham {A} _.

Definition at_label {A} (o : perClass A) (l : label) : A :=
  match l with Spam => spam o | Ham => ham o end.

Definition upd_label {A} (o : perClass A) (l : label) (f : A -> A) : perClass A :=
  match l with
  | Spam => PerClass (f (spam o)) (ham o)
  | Ham => PerClass (spam o) (f (ham o))
  end.

Record model : Type := Model {
  vocabulary : JsMap.t Z;
  documentFrequency : JsMap.t Z;
  totalDocuments : Z;
  classDocCount : perClass Z;
  classWordCounts : perClass (JsMap.t Z);
  classTotalWords : perClass Z;
  alpha : R;
  minDf : Z;
  isTrained : bool
}.

(** The constructor. *)
Definition newModel : model :=
  {| vocabulary := JsMap.empty;
     documentFrequency := JsMap.empty;
     totalDocuments := 0;
     classDocCount := PerClass 0%Z 0%Z;
     classWordCounts := PerClass JsMap.empty JsMap.empty;
     classTotalWords := PerClass 0%Z 0%Z;
     alpha := 1%R;
     minDf := 2;
     isTrained := false |}.

(** Overriding the two configuration fields of an instance. *)
Definition withAlpha (a : R) (m : model) : model :=
  Model (vocabulary m) (documentFrequency m) (totalDocuments m)
        (classDocCount m) (classWordCounts m) (classTotalWords m)
        a (minDf m) (isTrained m).

Definition withMinDf (d : Z) (m : model) : model :=
  Model (vocabulary m) (documentFrequency m) (totalDocuments m)
        (classDocCount m) (classWordCounts m) (classTotalWords m)
        (alpha m) d (isTrained m).

(** ** [train] *)

Module Item.
Record t : Type := make {
  label : label;
  emailData : option Email.t;
  text : option string
}.
End Item.

(** The features of a training item: the structured form wins, then the
    legacy text form; an item with neither is skipped ([None]). *)
Definition itemFeatures (item : Item.t) : option (list string) :=
  match Item.emailData item with
  | Some emailData => Some (extractFeatures emailData)
  | None =>
      if truthy (Item.text item) then Some (tokenize (Item.text item))
      else None
  end.

(** [m.set(word, (m.get(word) || 0) + 1)] *)
Definition increment (m : JsMap.t Z) (word : string) : JsMap.t Z :=
  JsMap.set word (getOr0 word m + 1)%Z m.

(** The first statements of [train]: every accumulator is emptied and the
    document total is set to the length of the training list. *)
Definition resetModel (n : Z) (m : model) : model :=
  {| vocabulary := JsMap.empty;
     documentFrequency := JsMap.empty;
     totalDocuments := n;
     classDocCount := PerClass 0%Z 0%Z;
     classWordCounts := PerClass JsMap.empty JsMap.empty;
     classTotalWords := PerClass 0%Z 0%Z;
     alpha := alpha m;
     minDf := minDf m;
     isTrained := isTrained m |}.

(** One iteration of the loop over the training items. *)
Definition trainItem (m : model) (item : Item.t) : model :=
  match itemFeatures item with
  | None => m
  | Some features =>
      let label := Item.label item in
      let uniqueWords := newSet features in
      {| vocabulary := vocabulary m;
         documentFrequency :=
           fold_left increment uniqueWords (documentFrequency m);
         totalDocuments := totalDocuments m;
         classDocCount := upd_label (classDocCount m) label Z.succ;
         classWordCounts :=
           upd_label (classWordCounts m) label
                     (fun counts => fold_left increment features counts);
         classTotalWords :=
           upd_label (classTotalWords m) label
                     (fun total => (total + Z.of_nat (length features))%Z);
         alpha := alpha m;
         minDf := minDf m;
         isTrained := isTrained m |}
  end.

(** The loop building the vocabulary: the entries of the document-frequency
    map in insertion order, numbered from 0 as they pass the threshold. *)
Definition vocabularyStep (minDf : Z) (st : JsMap.t Z * Z) (entry : string * Z)
  : JsMap.t Z * Z :=
  let '(vocab, idx) := st in
  let '(word, df) := entry in
  if (minDf <=? df)%Z then (JsMap.set word idx vocab, (idx + 1)%Z)
  else (vocab, idx).

Definition buildVocabulary (m : model) : model :=
  {| vocabulary :=
       fst (fold_left (vocabularyStep (minDf m))
                      (JsMap.entries (documentFrequency m))
                      (vocabulary m, 0%Z));
     documentFrequency := documentFrequency m;
     totalDocuments := totalDocuments m;
     classDocCount := classDocCount m;
     classWordCounts := classWordCounts m;
     classTotalWords := classTotalWords m;
     alpha := alpha m;
     minDf := minDf m;
     isTrained := isTrained m |}.

Definition setIsTrained (b : bool) (m : model) : model :=
  {| vocabulary := vocabulary m;
     documentFrequency := documentFrequency m;
     totalDocuments := totalDocuments m;
     classDocCount := classDocCount m;
     classWordCounts := classWordCounts m;
     classTotalWords := classTotalWords m;
     alpha := alpha m;
     minDf := minDf m;
     isTrained := b |}.

Definition train (trainingData : list Item.t) (m : model) : model :=
  let m0 := resetModel (Z.of_nat (length trainingData)) m in
  match trainingData with
  | [] => m0
  | _ :: _ =>
      setIsTrained true (buildVocabulary (fold_left trainItem trainingData m0))
  end.

(** ** TF-IDF *)

Local Open Scope R_scope.

(** The first loop counts; the second visits every key once and replaces
    its count by the count divided by the document length. *)
Definition termFrequency (words : list string) : JsMap.t R :=
  let tf := fold_left increment words JsMap.empty in
  let docLength :=
    match words with [] => 1%Z | _ :: _ => Z.of_nat (length words) end in
  map (fun entry => (fst entry, IZR (snd entry) / IZR docLength)) tf.

Definition idf (m : model) (word : string) : R :=
  let df := getOr0 word (documentFrequency m) in
  if (df =? 0)%Z then 0
  else ln ((IZR (totalDocuments m) + 1) / (IZR df + 1)) + 1.

(** The keys of [tf] are distinct, so the vector has one entry per entry of
    [tf], in the same order. *)
Definition tfidfFromFeatures (m : model) (features : list string) : JsMap.t R :=
  map (fun entry => (fst entry, snd entry * idf m (fst entry)))
      (termFrequency features).

(** ** [predict] *)

Module Prediction.
Record t : Type := make {
  label : string;
  probability : R;
  scores : list (string * R)
}.
End Prediction.

Definition labelName (l : label) : string :=
  match l with Spam => "spam" | Ham => "ham" end.

Inductive input : Type :=
| Text (s : string)
| Data (emailData : Email.t).

Definition inputFeatures (x : input) : list string :=
  match x with
  | Text s => tokenize (Some s)
  | Data emailData => extractFeatures emailData
  end.

(** [this.vocabulary.size || 1] *)
Definition vocabSize (m : model) : Z :=
  if (JsMap.size (vocabulary m) =? 0)%Z then 1%Z else JsMap.size (vocabulary m).

Definition priorProb (m : model) (l : label) : R :=
  (IZR (at_label (classDocCount m) l) + alpha m)
  / (IZR (totalDocuments m) + 2 * alpha m).

Definition wordProb (m : model) (l : label) (word : string) : R :=
  let wordCount := getOr0 word (at_label (classWordCounts m) l) in
  let totalWords := at_label (classTotalWords m) l in
  (IZR wordCount + alpha m) / (IZR totalWords + alpha m * IZR (vocabSize m)).

(** The body of the inner loop, with its [continue]. *)
Definition logProbStep (m : model) (l : label) (logProb : R) (entry : string * R) : R :=
  if negb (JsMap.has (fst entry) (vocabulary m)) then logProb
  else logProb + ln (wordProb m l (fst entry)) * snd entry.

Definition logProb (m : model) (tfidfVec : JsMap.t R) (l : label) : R :=
  fold_left (logProbStep m l) tfidfVec (ln (priorProb m l)).

Definition logProbs (m : model) (features : list string) : perClass R :=
  let tfidfVec := tfidfFromFeatures m features in
  PerClass (logProb m tfidfVec Spam) (logProb m tfidfVec Ham).

Definition normalize (lp : perClass R) : perClass R :=
  let maxLogProb := Rmax (spam lp) (ham lp) in
  let expSpam := exp (spam lp - maxLogProb) in
  let expHam := exp (ham lp - maxLogProb) in
  let sumExp := expSpam + expHam in
  PerClass (expSpam / sumExp) (expHam / sumExp).

Definition scoresObject (p : perClass R) : list (string * R) :=
  [("spam", spam p); ("ham", ham p)].

Definition predictFeatures (m : model) (features : list string) : Prediction.t :=
  let probabilities := normalize (logProbs m features) in
  let predictedLabel :=
    if Rgt_dec (spam probabilities) (ham probabilities) then Spam else Ham in
  {| Prediction.label := labelName predictedLabel;
     Prediction.probability := at_label probabilities predictedLabel;
     Prediction.scores := scoresObject probabilities |}.

Definition unknownPrediction : Prediction.t :=
  {| Prediction.label := "unknown";
     Prediction.probability := 0;
     Prediction.scores := [] |}.

Definition predict (m : model) (emailData : input) : Prediction.t :=
  if negb (isTrained m) then unknownPrediction
  else predictFeatures m (inputFeatures emailData).

(** ** Snapshots: [serialize] and [deserialize] *)

Module Snapshot.
Record t : Type := make {
  vocabulary : option (list (string * Z));
  documentFrequency : option (list (string * Z));
  totalDocuments : option Z;
  classDocCount : option (perClass Z);
  classWordCounts : option (perClass (option (list (string * Z))));
  classTotalWords : option (perClass Z);
  isTrained : option bool
}.
End Snapshot.

Definition serialize (m : model) : Snapshot.t :=
  {| Snapshot.vocabulary := Some (JsMap.entries (vocabulary m));
     Snapshot.documentFrequency := Some (JsMap.entries (documentFrequency m));
     Snapshot.totalDocuments := Some (totalDocuments m);
     Snapshot.classDocCount := Some (classDocCount m);
     Snapshot.classWordCounts :=
       Some (PerClass (Some (JsMap.entries (spam (classWordCounts m))))
                      (Some (JsMap.entries (ham (classWordCounts m)))));
     Snapshot.classTotalWords := Some (classTotalWords m);
     Snapshot.isTrained := Some (isTrained m) |}.

(** [x || d] on a property that may be missing. *)
Definition orElse {A} (x : option A) (d : A) : A :=
  match x with Some a => a | None => d end.

(** [data.classWordCounts?.spam || []] *)
Definition wordCountsOf (sel : perClass (option (list (string * Z))) -> option (list (string * Z)))
  (data : Snapshot.t) : list (string * Z) :=
  match Snapshot.classWordCounts data with
  | Some o => orElse (sel o) []
  | None => []
  end.

Definition deserialize (data : option Snapshot.t) (m : model) : model :=
  match data with
  | None => m
  | Some data =>
      {| vocabulary := JsMap.ofEntries (orElse (Snapshot.vocabulary data) []);
         documentFrequency :=
           JsMap.ofEntries (orElse (Snapshot.documentFrequency data) []);
         totalDocuments := orElse (Snapshot.totalDocuments data) 0%Z;
         classDocCount :=
           orElse (Snapshot.classDocCount data) (PerClass 0%Z 0%Z);
         classWordCounts :=
           PerClass (JsMap.ofEntries (wordCountsOf spam data))
                    (JsMap.ofEntries (wordCountsOf ham data));
         classTotalWords :=
           orElse (Snapshot.classTotalWords data) (PerClass 0%Z 0%Z);
         alpha := alpha m;
         minDf := minDf m;
         isTrained := orElse (Snapshot.isTrained data) false |}
  end.

(** ** Vocabulary of the specification *)

(** The keys of a [Map] are distinct. *)
Definition distinctKeys {V : Type} (m : JsMap.t V) : Prop :=
  NoDup (JsMap.keys m).

(** Every [Map] of a model instance is a [Map]. *)
Definition wellFormed (m : model) : Prop :=
  distinctKeys (vocabulary m)
  /\ distinctKeys (documentFrequency m)
  /\ distinctKeys (spam (classWordCounts m))
  /\ distinctKeys (ham (classWordCounts m)).

(** The document frequency the model records for a feature, as [idf]
    reads it. *)
Definition recordedDf (m : model) (word : string) : Z :=
  getOr0 word (documentFrequency m).

(** A training document contains a feature when the feature occurs at least
    once among its features; a skipped item has no features. *)
Definition containsFeature (word : string) (item : Item.t) : bool :=
  match itemFeatures item with
  | Some features => memb word features
  | None => false
  end.

(** The number of training documents that contain a feature. *)
Definition documentsContaining (word : string) (corpus : list Item.t) : nat :=
  length (filter (containsFeature word) corpus).

(** The log-score of a class computed with the term of one feature left
    out. *)
Definition logProbSkipping (skipped : string) (m : model)
  (tfidfVec : JsMap.t R) (l : label) : R :=
  fold_left
    (fun logProb entry =>
       if String.eqb (fst entry) skipped then logProb
       else logProbStep m l logProb entry)
    tfidfVec (ln (priorProb m l)).

(** Looking up a class in the score object of a prediction. *)
Definition score (name : string) (p : Prediction.t) : option R :=
  JsMap.get name (Prediction.scores p).

(** An entry of the document-frequency map passes the gate of the
    vocabulary loop for the word [w]. *)
Definition passes (minDf : Z) (w : string) (entry : string * Z) : bool :=
  (String.eqb (fst entry) w && (minDf <=? snd entry)%Z)%bool.

(** The entries of a map whose key is not [z]. *)
Definition otherThan {V : Type} (z : string) (m : JsMap.t V) : JsMap.t V :=
  filter (fun entry => negb (String.eqb (fst entry) z)) m.

(** The length by which [termFrequency] divides: [words.length || 1]. *)
Definition docLength (words : list string) : Z :=
  match words with [] => 1%Z | _ :: _ => Z.of_nat (length words) end.

(** The TF-IDF entry made from an entry of the count map. *)
Definition weigh (m : model) (d : Z) (entry : string * Z) : string * R :=
  (fst entry, (IZR (snd entry) / IZR d * idf m (fst entry))%R).

(** The sum that the scoring loop adds to the log-prior, before the
    division by the document length. *)
Definition weightedSum (m : model) (l : label) (counts : JsMap.t Z) : R :=
  fold_right
    (fun entry sum =>
       ((if JsMap.has (fst entry) (vocabulary m)
         then ln (wordProb m l (fst entry))
              * (IZR (snd entry) * idf m (fst entry))
         else 0) + sum)%R)
    0%R counts.

(** Every value of a count map is a count. *)
Definition nonnegValues (m : JsMap.t Z) : Prop :=
  Forall (fun entry => (0 <= snd entry)%Z) m.

(** Every counter of a model is non-negative. *)
Definition countsNonneg (m : model) : Prop :=
  (0 <= totalDocuments m)%Z
  /\ (forall l, 0 <= at_label (classDocCount m) l)%Z
  /\ (forall l, 0 <= at_label (classTotalWords m) l)%Z
  /\ (forall l, nonnegValues (at_label (classWordCounts m) l))
  /\ nonnegValues (documentFrequency m).

(** ** Corpora and models used in the examples *)

Definition tieCorpus : list Item.t :=
  [Item.make Spam None (Some "aa bb"); Item.make Ham None (Some "aa bb")].

Definition smallCorpus : list Item.t :=
  [Item.make Spam None (Some "aa"); Item.make Ham None (Some "aa bb")].

Definition spamOnlyCorpus : list Item.t :=
  [Item.make Spam None (Some "aa")].

(** A model whose smoothing constant was set to 2 before training. *)
Definition alphaTwoModel : model :=
  train spamOnlyCorpus (withAlpha 2%R newModel).

(** ** Vocabulary of the further properties *)

Local Close Scope R_scope.






Definition labelEqb (a b : label) : bool :=
  match a, b with
  | Spam, Spam | Ham, Ham => true
  | _, _ => false
  end.

(** A training item that the loop of [train] does not skip. *)
Definition processed (item : Item.t) : bool :=
  match itemFeatures item with Some _ => true | None => false end.

(** What one item adds to the words of a class: its features when it has
    that label and is not skipped. *)
Definition itemFeaturesFor (l : label) (item : Item.t) : list string :=
  if labelEqb (Item.label item) l
  then match itemFeatures item with Some features => features | None => [] end
  else [].

(** All feature instances of the documents of a class. *)
Definition classFeatures (l : label) (corpus : list Item.t) : list string :=
  flat_map (itemFeaturesFor l) corpus.

(** The number of documents of a class that [train] does not skip. *)
Definition classDocuments (l : label) (corpus : list Item.t) : nat :=
  length (filter (fun item => processed item && labelEqb (Item.label item) l)
                 corpus).

(** The number of times a word occurs in a list of features. *)
Definition occurrences (w : string) (features : list string) : nat :=
  length (filter (String.eqb w) features).

(** The sum of the values of a count map. *)
Definition sumValues (m : JsMap.t Z) : Z :=
  fold_right (fun entry sum => (snd entry + sum)%Z) 0%Z m.

(** The words of a list paired with consecutive indices, starting at [i]. *)
Fixpoint numbered (i : Z) (words : list string) : JsMap.t Z :=
  match words with
  | [] => []
  | w :: rest => (w, i) :: numbered (i + 1)%Z rest
  end.

(** The entries of the document-frequency map that reach the minimum. *)
Definition frequentEntries (m : model) : list (string * Z) :=
  filter (fun entry => (minDf m <=? snd entry)%Z)
         (JsMap.entries (documentFrequency m)).

(** The sum of the values of a map of real numbers. *)
Definition sumR (m : JsMap.t R) : R :=
  fold_right (fun entry sum => (snd entry + sum)%R) 0%R m.

(** What one instance of a feature adds to the log-score of a class,
    before the division by the document length. *)
Definition featureTerm (m : model) (l : label) (word : string) : R :=
  if JsMap.has word (vocabulary m)
  then (ln (wordProb m l word) * idf m word)%R
  else 0%R.

(** The sum of the terms of all feature instances of a document. *)
Definition featureTerms (m : model) (l : label) (features : list string) : R :=
  fold_right (fun word sum => (featureTerm m l word + sum)%R) 0%R features.

(** A snapshot none of whose fields is present. *)
Definition emptySnapshot : Snapshot.t :=
  Snapshot.make None None None None None None None.

(** ** [getTopFeatures] *)

Local Open Scope R_scope.

(** [Array.prototype.sort] with the comparator [(a, b) => b[1] - a[1]]: the
    sort is stable, so the result is the one of inserting the entries, last
    first, each before the first entry whose weight is not larger. *)
Fixpoint insertDescending (entry : string * R) (sorted : list (string * R))
  : list (string * R) :=
  match sorted with
  | [] => [entry]
  | next :: rest =>
      if Rlt_dec (snd entry) (snd next)
      then next :: insertDescending entry rest
      else entry :: next :: rest
  end.

Definition sortDescending (entries : list (string * R)) : list (string * R) :=
  fold_right insertDescending [] entries.

(** [array.slice(0, n)]: a negative [n] counts from the end. *)
Definition slice0 {A : Type} (n : Z) (l : list A) : list A :=
  if (n <? 0)%Z
  then firstn (Z.to_nat (Z.max 0 (Z.of_nat (length l) + n))) l
  else firstn (Z.to_nat n) l.

(** The order of the sorted entries: the weight of [a] is not below the
    weight of [b]. *)
Definition notBelow (a b : string * R) : Prop := snd a >= snd b.

Module TopFeature.
Record t : Type := make { word : string; score : string }.
End TopFeature.

Section GetTopFeatures.

(** [score.toFixed(4)], the decimal rendering of a weight, is kept
    abstract. *)
Variable toFixed4 : R -> string.

Definition topFeature (entry : string * R) : TopFeature.t :=
  {| TopFeature.word := fst entry; TopFeature.score := toFixed4 (snd entry) |}.

(** The entries that are rendered: filtered, sorted and cut. *)
Definition topEntries (m : model) (emailData : input) (n : option Z)
  : list (string * R) :=
  let features := inputFeatures emailData in
  let tfidfVec := tfidfFromFeatures m features in
  slice0 (orElse n 10%Z)
    (sortDescending
       (filter (fun entry => JsMap.has (fst entry) (vocabulary m))
               (JsMap.entries tfidfVec))).

(** [n] is [None] when the caller leaves it out (the default is 10). *)
Definition getTopFeatures (m : model) (emailData : input) (n : option Z)
  : list TopFeature.t :=
  map topFeature (topEntries m emailData n).

End GetTopFeatures.

Local Close Scope R_scope.

(** ** [parseSender] *)

Module Sender.
Record t : Type := make { name : string; email : string }.
End Sender.

(** A line terminator below code unit 256; the dot of a regular expression
    matches every other character. *)
Definition isLineTerminator (c : ascii) : bool := isChar 10 c || isChar 13 c.

Fixpoint dropWhile (p : ascii -> bool) (l : list ascii) : list ascii :=
  match l with
  | c :: r => if p c then dropWhile p r else l
  | [] => []
  end.

(** [String.prototype.trim] *)
Definition trim (l : list ascii) : list ascii :=
  rev (dropWhile isSpace (rev (dropWhile isSpace l))).

(** The rest of the expression [/^(.+?)\s*<([^>]+)>$/] after the first
    group: white space, a [<], a non-empty run without [>], and a [>] that
    ends the string.  The result is the second group. *)
Definition matchAddress (rest : list ascii) : option (list ascii) :=
  match dropWhile isSpace rest with
  | c :: after =>
      if isChar 60 c
      then let address := takeWhile (fun c => negb (isChar 62 c)) after in
           match address, skipn (length address) after with
           | _ :: _, [close] => if isChar 62 close then Some address else None
           | _, _ => None
           end
      else None
  | [] => None
  end.

(** The lazy first group: the shortest non-empty prefix without a line
    terminator after which the rest of the expression matches.  [nameRev]
    is the prefix read so far, reversed. *)
Fixpoint matchSender (nameRev rest : list ascii)
  : option (list ascii * list ascii) :=
  match rest with
  | [] => None
  | c :: r =>
      if isLineTerminator c then None
      else match matchAddress r with
           | Some address => Some (rev (c :: nameRev), address)
           | None => matchSender (c :: nameRev) r
           end
  end.

Definition parseSender (author : option string) : Sender.t :=
  match author with
  | None => Sender.make "" ""
  | Some s =>
      if negb (truthy author) then Sender.make "" ""
      else
        match matchSender [] (chars s) with
        | Some (name, address) =>
            Sender.make (str (trim name)) (str (trim address))
        | None =>
            if existsb (isChar 64) (chars s)
            then Sender.make "" (str (trim (chars s)))
            else Sender.make (str (trim (chars s))) ""
        end
  end.

(** A string that begins or ends with white space. *)
Definition edgeSpace (l : list ascii) : bool :=
  match l with
  | [] => false
  | c :: _ => isSpace c || isSpace (last l c)
  end.

(** The author string made of a display name and an address. *)
Definition formatSender (name address : string) : string :=
  String.append name (String.append " <" (String.append address ">")).

(** ** [getMessageBodyText] *)

(** [body.replace(/<[^>]*>/g, ' ')], as in [tokenize]. *)
Definition stripTags (body : string) : string :=
  str (replaceAll matchTag O (chars body)).

(** No [<] of the text is followed, anywhere later, by a [>]. *)
Fixpoint tagFree (l : list ascii) : bool :=
  match l with
  | [] => true
  | c :: r => negb (isChar 60 c && existsb (isChar 62) r) && tagFree r
  end.

(** A part of a message, as [browser.messages.getFull] returns it. *)
#[warnings="-register-all"] Inductive part : Type :=
| Part (contentType : option string) (body : option string)
       (parts : option (list part)).

(** [contentType && contentType.startsWith(prefix)] *)
Definition startsWith (prefix : string) (contentType : option string) : bool :=
  match contentType with
  | Some s =>
      match dropPrefix (chars prefix) (chars s) with
      | Some _ => truthy contentType
      | None => false
      end
  | None => false
  end.

(** What one part appends to the text, its sub-parts apart. *)
Definition partText (contentType body : option string) : list ascii :=
  match body with
  | Some b =>
      if startsWith "text/plain" contentType && truthy body
      then chars b ++ chars " "
      else if startsWith "text/html" contentType && truthy body
           then chars (stripTags b) ++ chars " "
           else []
  | None => []
  end.

(** The inner function [extractText]; [bodyText] is the variable it
    appends to. *)
Fixpoint extractText (p : part) (bodyText : list ascii) : list ascii :=
  match p with
  | Part contentType body parts =>
      let bodyText := bodyText ++ partText contentType body in
      match parts with
      | Some subparts =>
          fold_left (fun text subpart => extractText subpart text)
                    subparts bodyText
      | None => bodyText
      end
  end.

(** [full] is the result of [browser.messages.getFull], [None] when the
    call fails: the failure is caught and the text is empty. *)
Definition getMessageBodyText (full : option part) : string :=
  match full with
  | Some messagePart => str (firstn 5000 (extractText messagePart []))
  | None => ""
  end.

(** ** [hasSpamHeader] *)

(** [String.prototype.toUpperCase] on one code unit below 256.  The result
    is a list of code units: the sharp s becomes two letters, and the
    upper-case forms of the micro sign and of y with diaeresis lie above
    255. *)
Definition upperUnits (c : ascii) : list N :=
  if between 97 122 c then [(code c - 32)%N]
  else if isChar 223 c then [83%N; 83%N]
  else if isChar 255 c then [376%N]
  else if isChar 181 c then [924%N]
  else if between 224 254 c && negb (isChar 247 c) then [(code c - 32)%N]
  else [code c].

Definition toUpperCase (s : string) : list N := flat_map upperUnits (chars s).

Fixpoint isPrefix (needle hay : list N) : bool :=
  match needle, hay with
  | [], _ => true
  | a :: needle', b :: hay' => (a =? b)%N && isPrefix needle' hay'
  | _ :: _, [] => false
  end.

(** [hay.includes(needle)] *)
Fixpoint includes (needle hay : list N) : bool :=
  isPrefix needle hay
  || match hay with
     | [] => false
     | _ :: hay' => includes needle hay'
     end.

Module SpamHeader.
Record t : Type := make { header : string; value : string }.
End SpamHeader.

Definition SPAM_HEADERS : list SpamHeader.t :=
  [SpamHeader.make "x-spam-status" "Yes";
   SpamHeader.make "x-spam-flag" "YES";
   SpamHeader.make "x-hines-imss-spam" "SPAM"].

(** The headers of a message: an object from lower-case header names to
    the list of the header's values.  A [for] loop that returns [true] at
    the first hit is an [existsb]. *)
Definition hasSpamHeader (headers : JsMap.t (list string)) : bool :=
  existsb
    (fun check =>
       match JsMap.get (SpamHeader.header check) headers with
       | Some headerValue =>
           existsb
             (fun value =>
                includes (toUpperCase (SpamHeader.value check))
                         (toUpperCase value))
             headerValue
       | None => false
       end)
    SPAM_HEADERS.



(** ** Folder trees: [countFolders], [countFoldersRecursive], [getAllFolders] *)

#[warnings="-register-all"] Inductive folder : Type :=
| Folder (id name path : string) (type : option string)
         (subFolders : option (list folder)).

Definition folderName (f : folder) : string :=
  match f with Folder _ name _ _ _ => name end.

Definition folderType (f : folder) : option string :=
  match f with Folder _ _ _ type _ => type end.

Definition folderSubFolders (f : folder) : option (list folder) :=
  match f with Folder _ _ _ _ subFolders => subFolders end.

(** One iteration of the loop of [countFoldersRecursive]: what
    [if (folder.subFolders) count += countFoldersRecursive(folder.subFolders)]
    adds. *)
Fixpoint countBelow (f : folder) : Z :=
  match f with
  | Folder _ _ _ _ (Some subFolders) =>
      fold_left (fun count sub => (count + countBelow sub)%Z) subFolders
                (Z.of_nat (length subFolders))
  | Folder _ _ _ _ None => 0%Z
  end.

Definition countFoldersRecursive (folders : list folder) : Z :=
  fold_left (fun count f => (count + countBelow f)%Z) folders
            (Z.of_nat (length folders)).

(** [skipTypes.includes(folder.type)]; a folder without a type has the
    type [undefined], which no list of strings includes. *)
Definition includesType (skipTypes : list string) (type : option string) : bool :=
  match type with
  | Some t => memb t skipTypes
  | None => false
  end.

Definition countFolders (folders : list folder) (skipTypes : list string) : Z :=
  fold_left
    (fun count f =>
       if negb (includesType skipTypes (folderType f))
       then (count + 1 + countBelow f)%Z
       else count)
    folders 0%Z.

Module FolderEntry.
Record t : Type := make {
  id : string;
  name : string;
  path : string;
  accountName : string;
  type : option string;
  depth : nat;
  displayName : string
}.
End FolderEntry.




Module Account.
Record t : Type := make { id : string; name : string; folders : list folder }.
End Account.


(** ** [checkAndMoveMessage]

    The calls into the mail client are inputs of the model: what
    [browser.messages.getFull] returns for the header check and for the
    body ([None] when it fails), what [findSpamFolder] finds, and whether
    the move and the saving of the statistics go through.  What the function
    does to the outside is returned as a list of effects. *)

Local Open Scope R_scope.

Module Settings.
Record t : Type := make {
  enabled : bool;
  autoScan : bool;
  notifyOnMove : bool;
  useMLClassifier : bool;
  mlThreshold : R;
  autoMoveThreshold : option R
}.
End Settings.

Module Stats.
Record t : Type := make { scannedCount : Z; movedCount : Z }.
End Stats.

Module Message.
Record t : Type := make {
  id : Z;
  author : option string;
  subject : option string;
  folderPath : string
}.
End Message.

Module FullMessage.
Record t : Type := make {
  headers : option (JsMap.t (list string));
  content : part
}.
End FullMessage.

(** What [findSpamFolder] does: it returns a folder, or [null], or fails. *)
Inductive folderLookup : Type :=
| Found (path : string)
| NotFound
| LookupFails.

Module World.
Record t : Type := make {
  fullForHeaders : option FullMessage.t;
  fullForBody : option FullMessage.t;
  spamFolder : folderLookup;
  moveSucceeds : bool;
  saveStatsSucceeds : bool
}.
End World.

Inductive effect : Type :=
| Move (messageId : Z) (folderPath : string)
| SaveStats
| Notify (title message : string).

Module Verdict.
Record t : Type := make {
  isSpam : bool;
  method : option string;
  probability : option R;
  topKeywords : option (list TopFeature.t)
}.
End Verdict.

Definition notSpam : Verdict.t := Verdict.make false None None None.

(** [getMessageHeaders]: the headers of the full message, [{}] when there
    are none or the message cannot be fetched. *)
Definition getMessageHeaders (full : option FullMessage.t)
  : JsMap.t (list string) :=
  match full with
  | Some f => orElse (FullMessage.headers f) []
  | None => []
  end.

(** [text || fallback] on a string that may be missing. *)
Definition orString (text : option string) (fallback : string) : string :=
  match text with
  | Some s => if truthy text then s else fallback
  | None => fallback
  end.

(** [settings.autoMoveThreshold || 0.99] *)
Definition autoMoveThresholdOf (s : Settings.t) : R :=
  match Settings.autoMoveThreshold s with
  | Some v => if Req_dec_T v 0 then 99 / 100 else v
  | None => 99 / 100
  end.

(** The outcome of a run: the statistics and effects so far, and whether an
    exception is on its way to the [catch]. *)
Module Run.
Record t : Type := make {
  stats : Stats.t;
  effects : list effect;
  threw : bool
}.
End Run.

(** The block that both branches share: look the spam folder up and, when
    the message is not in it, move the message, count the move, save the
    statistics and notify. *)
Definition moveToSpamFolder (s : Settings.t) (w : World.t) (message : Message.t)
  (stats : Stats.t) (title text : string) : Run.t :=
  match World.spamFolder w with
  | LookupFails => Run.make stats [] true
  | NotFound => Run.make stats [] false
  | Found path =>
      if String.eqb (Message.folderPath message) path
      then Run.make stats [] false
      else if negb (World.moveSucceeds w) then Run.make stats [] true
      else
        let moved := [Move (Message.id message) path] in
        let stats :=
          Stats.make (Stats.scannedCount stats) (Stats.movedCount stats + 1) in
        if negb (World.saveStatsSucceeds w) then Run.make stats moved true
        else
          Run.make stats
            (moved ++ [SaveStats]
             ++ (if Settings.notifyOnMove s then [Notify title text] else []))
            false
  end.

Section CheckAndMoveMessage.

(** The renderings of numbers: [score.toFixed(4)] and
    [(score * 100).toFixed(0)]. *)
Variable toFixed4 : R -> string.
Variable percent : R -> string.

(** [prediction.scores.spam >= threshold]; a missing score compares
    false. *)
Definition spamScoreReaches (prediction : Prediction.t) (threshold : R) : bool :=
  match score "spam" prediction with
  | Some v => if Rge_dec v threshold then true else false
  | None => false
  end.

Definition checkAndMoveMessage (s : Settings.t) (classifier : model)
  (w : World.t) (message : Message.t) (collectOnly : bool) (stats : Stats.t)
  : Verdict.t * Stats.t * list effect :=
  if negb (Settings.enabled s) then (notSpam, stats, [])
  else
    let stats :=
      Stats.make (Stats.scannedCount stats + 1) (Stats.movedCount stats) in
    let headers := getMessageHeaders (World.fullForHeaders w) in
    let subject := orString (Message.subject message) "(No subject)" in
    if hasSpamHeader headers then
      let run :=
        if negb collectOnly
        then moveToSpamFolder s w message stats "Spam Detected (Header)"
               (String.append "Moved: " subject)
        else Run.make stats [] false in
      if Run.threw run then (notSpam, Run.stats run, Run.effects run)
      else (Verdict.make true (Some "header") (Some 1) (Some []),
            Run.stats run, Run.effects run)
    else if Settings.useMLClassifier s && isTrained classifier then
      let sender := parseSender (Message.author message) in
      let body :=
        getMessageBodyText (option_map FullMessage.content (World.fullForBody w)) in
      let emailData :=
        Data (Email.make (Some (Sender.name sender)) (Some (Sender.email sender))
                (Some (orString (Message.subject message) ""))
                (Some body)) in
      let prediction := predict classifier emailData in
      if String.eqb (Prediction.label prediction) "spam"
         && spamScoreReaches prediction (Settings.mlThreshold s)
      then
        let topKeywords := getTopFeatures toFixed4 classifier emailData (Some 5%Z) in
        let spamScore := orElse (score "spam" prediction) 0 in
        let run :=
          if negb collectOnly && Settings.autoScan s
             && spamScoreReaches prediction (autoMoveThresholdOf s)
          then moveToSpamFolder s w message stats "Spam Detected (ML)"
                 (String.append "Moved: "
                    (String.append subject
                       (String.append (String (ascii_of_N 10) "Confidence: ")
                          (String.append (percent spamScore) "%"))))
          else Run.make stats [] false in
        if Run.threw run then (notSpam, Run.stats run, Run.effects run)
        else (Verdict.make true (Some "ml") (score "spam" prediction)
                (Some topKeywords),
              Run.stats run, Run.effects run)
      else (notSpam, stats, [])
    else (notSpam, stats, []).

End CheckAndMoveMessage.

Local Close Scope R_scope.

Definition isMove (e : effect) : bool :=
  match e with Move _ _ => true | _ => false end.

(** The number of messages moved by a list of effects. *)
Definition movesIn (effects : list effect) : Z :=
  Z.of_nat (length (filter isMove effects)).

(** The three parts of what [checkAndMoveMessage] returns and does. *)
Definition verdictOf (out : Verdict.t * Stats.t * list effect) : Verdict.t :=
  fst (fst out).
Definition statsOf (out : Verdict.t * Stats.t * list effect) : Stats.t :=
  snd (fst out).
Definition effectsOf (out : Verdict.t * Stats.t * list effect) : list effect :=
  snd out.


(** The email record that the classifier is asked about. *)
Definition emailOf (w : World.t) (message : Message.t) : input :=
  Data (Email.make
          (Some (Sender.name (parseSender (Message.author message))))
          (Some (Sender.email (parseSender (Message.author message))))
          (Some (orString (Message.subject message) ""))
          (Some (getMessageBodyText
                   (option_map FullMessage.content (World.fullForBody w))))).


(** A message with a spam header, the settings of a fresh installation and
    a message of the inbox, for the examples. *)
Definition headerSpamWorld : World.t :=
  World.make
    (Some (FullMessage.make
             (Some [("x-spam-flag"%string, ["YES"%string])])
             (Part (Some "text/plain") (Some "hello") None)))
    None (Found "/Junk") true true.

Definition defaultSettings : Settings.t :=
  Settings.make true true true true (7 / 10)%R None.

Definition inboxMessage : Message.t :=
  Message.make 7 (Some "Big Bob <bob@corp.org>") (Some "Hi") "/Inbox".


(** ** Models that score alike *)

(** Two models agree on everything [predict] reads. *)
Definition sameScoring (m m' : model) : Prop :=
  alpha m = alpha m'
  /\ isTrained m = isTrained m'
  /\ totalDocuments m = totalDocuments m'
  /\ classDocCount m = classDocCount m'
  /\ classTotalWords m = classTotalWords m'
  /\ JsMap.size (vocabulary m) = JsMap.size (vocabulary m')
  /\ forall w,
       JsMap.has w (vocabulary m) = JsMap.has w (vocabulary m')
       /\ recordedDf m w = recordedDf m' w
       /\ forall l, getOr0 w (at_label (classWordCounts m) l)
                    = getOr0 w (at_label (classWordCounts m') l).

(** ** [collectTrainingDataFromFolder]

    A folder is the list of the pages that [browser.messages.list] and
    [browser.messages.continueList] deliver; a failing call ends the
    delivery (the samples collected so far are returned), so a folder whose
    first call fails has no page.  A listed message comes with what
    [browser.messages.getFull] returns for it. *)

Definition listedMessage : Type := (Message.t * option FullMessage.t)%type.

Definition sampleOf (label : label) (listed : listedMessage) : Item.t :=
  let message := fst listed in
  let sender := parseSender (Message.author message) in
  let body := getMessageBodyText (option_map FullMessage.content (snd listed)) in
  Item.make label
    (Some (Email.make (Some (Sender.name sender)) (Some (Sender.email sender))
                      (Some (orString (Message.subject message) ""))
                      (Some body)))
    None.

(** The [for] loop over the messages of a page; after the [break] nothing
    changes any more. *)
Definition collectMessage (label : label) (maxSamples : Z)
  (st : list Item.t * Z) (listed : listedMessage) : list Item.t * Z :=
  let '(samples, count) := st in
  if (maxSamples <=? count)%Z then st
  else (samples ++ [sampleOf label listed], (count + 1)%Z).

(** The [while] loop over the pages. *)
Fixpoint collectPages (pages : list (list listedMessage)) (label : label)
  (maxSamples : Z) (samples : list Item.t) (count : Z) : list Item.t :=
  match pages with
  | [] => samples
  | page :: rest =>
      if (count <? maxSamples)%Z
      then
        let '(samples, count) :=
          fold_left (collectMessage label maxSamples) page (samples, count) in
        match rest with
        | _ :: _ =>
            if (count <? maxSamples)%Z
            then collectPages rest label maxSamples samples count
            else samples
        | [] => samples
        end
      else samples
  end.

Definition collectTrainingDataFromFolder (pages : list (list listedMessage))
  (label : label) (maxSamples : Z) : list Item.t :=
  collectPages pages label maxSamples [] 0%Z.

(** ** The sampling loops of [trainFromMailboxFolders] *)

(** [Math.ceil(a / b)] for integers and a positive [b]. *)
Definition ceilDiv (a b : Z) : Z := (- ((- a) / b))%Z.

(** One of the two loops over folders: each folder yields at most
    [perFolder] samples and no more than are still missing; after the
    [break] nothing changes any more. *)
Definition collectClass (folders : list (list (list listedMessage)))
  (label : label) (maxTotal perFolder : Z) : list Item.t :=
  fold_left
    (fun samples folder =>
       if (maxTotal <=? Z.of_nat (length samples))%Z then samples
       else samples
            ++ collectTrainingDataFromFolder folder label
                 (Z.min perFolder (maxTotal - Z.of_nat (length samples))))
    folders [].

(** Steps 1 and 2 of [trainFromMailboxFolders]: the spam samples, then as
    many ham samples at most.  The folders are what [findSpamFolders] and
    [findInboxFolders] return; [maxTrainingSamples] is the setting. *)
Definition collectBalanced
  (spamFolders inboxFolders : list (list (list listedMessage)))
  (maxTrainingSamples : option Z) : list Item.t * list Item.t :=
  let maxPerClass :=
    match maxTrainingSamples with
    | Some v => if (v =? 0)%Z then 500%Z else v
    | None => 500%Z
    end in
  let spamPerFolder :=
    ceilDiv maxPerClass (Z.max (Z.of_nat (length spamFolders)) 1) in
  let spamSamples := collectClass spamFolders Spam maxPerClass spamPerFolder in
  let targetHamCount := Z.of_nat (length spamSamples) in
  let hamPerFolder :=
    ceilDiv targetHamCount (Z.max (Z.of_nat (length inboxFolders)) 1) in
  let hamSamples := collectClass inboxFolders Ham targetHamCount hamPerFolder in
  (spamSamples, hamSamples).

(** * Properties *)

Local Close Scope R_scope.

(** ** The tokenizer and the feature extractor on examples *)

Example tokenize_plain :
  tokenize (Some "Win a FREE prize now") = ["win"; "free"; "prize"; "now"].
Proof. reflexivity. Qed.

Example tokenize_markup :
  tokenize (Some "<b>Click</b> https://Evil.example.com/x?y=1 or mail bob@corp.org!")
  = ["click"; "evil.example.com"; "or"; "mail"; "corp.org"].
Proof. reflexivity. Qed.

Example tokenize_single_characters :
  tokenize (Some "a bc d  ef") = ["bc"; "ef"].
Proof. reflexivity. Qed.

Example extractFeatures_full :
  extractFeatures
    (Email.make (Some "Big Bob") (Some "Bob <bob@Mail.Example.COM>")
                (Some "free prize") (Some "claim the prize"))
  = ["name_big"; "name_bob"; "domain_mail.example.com"; "tld_COM";
     "subj_free"; "subj_prize"; "free"; "prize"; "claim"; "the"; "prize"].
Proof. reflexivity. Qed.

Lemma tokenize_falsy (text : option string) :
  truthy text = false -> tokenize text = [].
Proof. unfold tokenize. intros ->. reflexivity. Qed.

Lemma tokenize_missing : tokenize None = [].
Proof. reflexivity. Qed.

(** A field guarded by [if (emailData.field)] and then tokenized gives the
    tokens of the field whether the guard is there or not. *)
Lemma guarded_tokens (text : option string) (f : list string -> list string) :
  f [] = [] ->
  (if truthy text then f (tokenize text) else []) = f (tokenize text).
Proof.
  intros Hf. destruct (truthy text) eqn:E; [reflexivity|].
  rewrite (tokenize_falsy _ E). symmetry. exact Hf.
Qed.

Lemma subjectFeatures_eq (e : Email.t) :
  subjectFeatures e
  = prefixed "subj_" (tokenize (Email.subject e)) ++ tokenize (Email.subject e).
Proof.
  unfold subjectFeatures.
  exact (guarded_tokens (Email.subject e)
           (fun ts => prefixed "subj_" ts ++ ts) eq_refl).
Qed.

Lemma bodyFeatures_eq (e : Email.t) :
  bodyFeatures e = tokenize (Email.body e).
Proof.
  unfold bodyFeatures.
  exact (guarded_tokens (Email.body e) (fun ts => ts) eq_refl).
Qed.

Lemma nameFeatures_eq (e : Email.t) :
  nameFeatures e = prefixed "name_" (tokenize (Email.senderName e)).
Proof.
  unfold nameFeatures.
  exact (guarded_tokens (Email.senderName e) (prefixed "name_") eq_refl).
Qed.

(** C7. The features of an email record are, in this order: the sender-name
    tokens prefixed [name_]; the features of the sender address; every
    subject token prefixed [subj_]; every subject token again, bare; every
    body token, bare.  So each subject token is emitted exactly twice (once
    prefixed, once bare) and each body token exactly once, and a field that
    is missing contributes the empty list. *)
Theorem extractFeatures_channels (e : Email.t) :
  let subjectTokens := tokenize (Email.subject e) in
  let bodyTokens := tokenize (Email.body e) in
  extractFeatures e
  = nameFeatures e ++ emailFeatures e
    ++ map (String.append "subj_") subjectTokens ++ subjectTokens
    ++ bodyTokens
  /\ length (extractFeatures e)
     = (length (nameFeatures e) + length (emailFeatures e)
        + 2 * length subjectTokens + length bodyTokens)%nat
  /\ (Email.senderName e = None -> nameFeatures e = [])
  /\ (Email.senderEmail e = None -> emailFeatures e = [])
  /\ (Email.subject e = None -> subjectTokens = [] /\ subjectFeatures e = [])
  /\ (Email.body e = None -> bodyTokens = [] /\ bodyFeatures e = []).
Proof.
  cbv zeta.
  assert (Hshape : extractFeatures e
    = nameFeatures e ++ emailFeatures e
      ++ map (String.append "subj_") (tokenize (Email.subject e))
      ++ tokenize (Email.subject e) ++ tokenize (Email.body e)).
  { unfold extractFeatures.
    rewrite subjectFeatures_eq, bodyFeatures_eq. unfold prefixed.
    rewrite app_nil_l, <- !app_assoc. reflexivity. }
  split; [exact Hshape|]. split.
  - rewrite Hshape, !length_app, length_map. lia.
  - split; [|split; [|split]].
    + intros H. unfold nameFeatures. rewrite H. reflexivity.
    + intros H. unfold emailFeatures. rewrite H. reflexivity.
    + intros H. unfold subjectFeatures. rewrite H. split; reflexivity.
    + intros H. unfold bodyFeatures. rewrite H. split; reflexivity.
Qed.

(** ** Insertion-ordered maps *)

Lemma NoDup_snoc {A : Type} (l : list A) (x : A) :
  NoDup l -> ~ In x l -> NoDup (l ++ [x]).
Proof.
  intros Hl Hx.
  replace (l ++ [x]) with (rev (x :: rev l))
    by (simpl; rewrite rev_involutive; reflexivity).
  apply NoDup_rev. constructor; [rewrite <- in_rev; exact Hx | apply NoDup_rev, Hl].
Qed.

Section JsMapFacts.
Context {V : Type}.
Implicit Types (m : JsMap.t V) (k w : string) (v : V).

Lemma get_set_same m k v : JsMap.get k (JsMap.set k v m) = Some v.
Proof.
  induction m as [|[k' v'] r IH]; simpl.
  - rewrite String.eqb_refl. reflexivity.
  - destruct (String.eqb k k') eqn:E; simpl; rewrite E; auto.
Qed.

Lemma get_set_other m k w v :
  k <> w -> JsMap.get w (JsMap.set k v m) = JsMap.get w m.
Proof.
  intros Hne. induction m as [|[k' v'] r IH]; simpl.
  - destruct (String.eqb_spec w k); congruence.
  - destruct (String.eqb_spec k k') as [->|]; simpl.
    + destruct (String.eqb_spec w k'); congruence.
    + rewrite IH. reflexivity.
Qed.

Lemma get_None_keys m k : JsMap.get k m = None <-> ~ In k (JsMap.keys m).
Proof.
  induction m as [|[k' v'] r IH]; simpl.
  - tauto.
  - destruct (String.eqb_spec k k') as [->|Hne].
    + split; [discriminate | intros H; exfalso; apply H; auto].
    + rewrite IH. split; [intros H [E|I]; congruence | tauto].
Qed.

Lemma set_absent m k v :
  JsMap.get k m = None -> JsMap.set k v m = m ++ [(k, v)].
Proof.
  induction m as [|[k' v'] r IH]; simpl; [reflexivity|].
  destruct (String.eqb k k'); [discriminate|].
  intros H. rewrite (IH H). reflexivity.
Qed.

Lemma keys_set m k v :
  JsMap.keys (JsMap.set k v m)
  = if JsMap.has k m then JsMap.keys m else JsMap.keys m ++ [k].
Proof.
  unfold JsMap.has.
  induction m as [|[k' v'] r IH]; simpl; [reflexivity|].
  destruct (String.eqb k k'); simpl; [reflexivity|].
  rewrite IH. destruct (JsMap.get k r); reflexivity.
Qed.

(** [set] keeps the keys distinct. *)
Lemma distinctKeys_empty : distinctKeys (@JsMap.empty V).
Proof. constructor. Qed.

Lemma distinctKeys_set m k v :
  distinctKeys m -> distinctKeys (JsMap.set k v m).
Proof.
  unfold distinctKeys. intros Hm. rewrite keys_set. unfold JsMap.has.
  destruct (JsMap.get k m) eqn:E; [assumption|].
  apply get_None_keys in E. apply NoDup_snoc; assumption.
Qed.

Lemma In_get m k v :
  distinctKeys m -> In (k, v) m -> JsMap.get k m = Some v.
Proof.
  unfold distinctKeys.
  induction m as [|[k' v'] r IH]; simpl; [tauto|].
  intros Hnd [E|I].
  - injection E as -> ->. rewrite String.eqb_refl. reflexivity.
  - inversion Hnd as [|? ? Hnotin Hr]; subst.
    destruct (String.eqb_spec k k') as [->|]; [|auto].
    exfalso. apply Hnotin. apply (in_map fst) in I. exact I.
Qed.

Lemma get_In m k v : JsMap.get k m = Some v -> In (k, v) m.
Proof.
  induction m as [|[k' v'] r IH]; simpl; [discriminate|].
  destruct (String.eqb_spec k k') as [->|].
  - intros [= ->]. auto.
  - auto.
Qed.

Lemma ofEntries_from (l acc : list (string * V)) :
  NoDup (JsMap.keys (acc ++ l)) ->
  fold_left (fun m kv => JsMap.set (fst kv) (snd kv) m) l acc = acc ++ l.
Proof.
  revert acc. induction l as [|[k v] l IH]; intros acc Hnd; simpl.
  - rewrite app_nil_r. reflexivity.
  - assert (Habs : JsMap.get k acc = None).
    { apply get_None_keys. intros Hin.
      unfold JsMap.keys in Hnd. rewrite map_app in Hnd. simpl in Hnd.
      apply NoDup_remove_2 in Hnd. apply Hnd, in_or_app. auto. }
    rewrite (set_absent _ _ _ Habs).
    rewrite IH; rewrite <- app_assoc; simpl; [reflexivity | exact Hnd].
Qed.

(** [new Map(Array.from(m.entries()))] is [m] again. *)
Lemma ofEntries_entries m :
  distinctKeys m -> JsMap.ofEntries (JsMap.entries m) = m.
Proof.
  intros Hm. unfold JsMap.ofEntries, JsMap.entries, JsMap.empty.
  rewrite ofEntries_from; [reflexivity | exact Hm].
Qed.

Lemma distinctKeys_fold_set (l : list (string * V)) m :
  distinctKeys m ->
  distinctKeys (fold_left (fun m kv => JsMap.set (fst kv) (snd kv) m) l m).
Proof.
  revert m. induction l as [|kv l IH]; intros m Hm; simpl; [assumption|].
  apply IH, distinctKeys_set, Hm.
Qed.

Lemma distinctKeys_ofEntries (l : list (string * V)) :
  distinctKeys (JsMap.ofEntries l).
Proof. apply distinctKeys_fold_set, distinctKeys_empty. Qed.

End JsMapFacts.

(** ** Counters *)

Local Open Scope Z_scope.

Lemma get_increment (m : JsMap.t Z) (k w : string) :
  JsMap.get w (increment m k)
  = if String.eqb k w then Some (getOr0 w m + 1) else JsMap.get w m.
Proof.
  unfold increment. destruct (String.eqb_spec k w) as [->|Hne].
  - apply get_set_same.
  - apply get_set_other, Hne.
Qed.

Lemma distinctKeys_increments (l : list string) (m : JsMap.t Z) :
  distinctKeys m -> distinctKeys (fold_left increment l m).
Proof.
  revert m. induction l as [|w l IH]; intros m Hm; simpl; [assumption|].
  apply IH. unfold increment. apply distinctKeys_set, Hm.
Qed.

Lemma memb_In (w : string) (l : list string) : memb w l = true <-> In w l.
Proof.
  unfold memb. rewrite existsb_exists. split.
  - intros [x [Hin Heq]]. apply String.eqb_eq in Heq. subst. exact Hin.
  - intros Hin. exists w. split; [exact Hin | apply String.eqb_refl].
Qed.

Lemma memb_app (w : string) (l1 l2 : list string) :
  memb w (l1 ++ l2) = memb w l1 || memb w l2.
Proof. unfold memb. apply existsb_app. Qed.

(** [new Set(features)] holds each feature once. *)
Lemma newSet_from (features acc : list string) :
  NoDup acc ->
  NoDup (fold_left setAdd features acc)
  /\ forall w, memb w (fold_left setAdd features acc)
               = memb w acc || memb w features.
Proof.
  revert acc. induction features as [|f features IH]; intros acc Hacc; simpl.
  - split; [assumption | intros w; rewrite orb_false_r; reflexivity].
  - assert (Hstep : NoDup (setAdd acc f)
                    /\ forall w, memb w (setAdd acc f)
                                 = memb w acc || String.eqb w f).
    { unfold setAdd. destruct (memb f acc) eqn:E.
      - split; [assumption|]. intros w.
        destruct (String.eqb_spec w f) as [->|]; [|rewrite orb_false_r; reflexivity].
        rewrite E. reflexivity.
      - split.
        + apply NoDup_snoc; [assumption|]. rewrite <- memb_In. congruence.
        + intros w. rewrite memb_app. simpl. rewrite orb_false_r. reflexivity. }
    destruct Hstep as [Hnd Hmem].
    destruct (IH _ Hnd) as [Hnd' Hmem']. split; [assumption|].
    intros w. rewrite Hmem', Hmem, orb_assoc. reflexivity.
Qed.

Lemma newSet_NoDup (features : list string) : NoDup (newSet features).
Proof. apply (newSet_from features []). constructor. Qed.

Lemma memb_newSet (w : string) (features : list string) :
  memb w (newSet features) = memb w features.
Proof.
  unfold newSet. rewrite (proj2 (newSet_from features [] (NoDup_nil _))).
  reflexivity.
Qed.

(** Incrementing once per word of a duplicate-free list adds one to the
    entry of each listed word and leaves all others alone. *)
Lemma get_increments_NoDup (u : list string) (m : JsMap.t Z) (w : string) :
  NoDup u ->
  JsMap.get w (fold_left increment u m)
  = if memb w u then Some (getOr0 w m + 1) else JsMap.get w m.
Proof.
  revert m. induction u as [|k u IH]; intros m Hnd; simpl; [reflexivity|].
  inversion Hnd as [|? ? Hnotin Hu]; subst.
  rewrite (IH _ Hu).
  destruct (String.eqb_spec w k) as [->|Hne]; simpl.
  - assert (Hk : memb k u = false).
    { destruct (memb k u) eqn:E; [|reflexivity].
      apply memb_In in E. contradiction. }
    rewrite Hk, get_increment, String.eqb_refl. reflexivity.
  - unfold getOr0. rewrite !get_increment.
    destruct (String.eqb_spec k w); [congruence|]. reflexivity.
Qed.

(** ** Training *)

Lemma trainItem_config (m : model) (item : Item.t) :
  alpha (trainItem m item) = alpha m
  /\ minDf (trainItem m item) = minDf m
  /\ isTrained (trainItem m item) = isTrained m
  /\ totalDocuments (trainItem m item) = totalDocuments m
  /\ vocabulary (trainItem m item) = vocabulary m.
Proof. unfold trainItem. destruct (itemFeatures item); simpl; auto. Qed.

Lemma trainItems_config (corpus : list Item.t) (m : model) :
  alpha (fold_left trainItem corpus m) = alpha m
  /\ minDf (fold_left trainItem corpus m) = minDf m
  /\ isTrained (fold_left trainItem corpus m) = isTrained m
  /\ totalDocuments (fold_left trainItem corpus m) = totalDocuments m
  /\ vocabulary (fold_left trainItem corpus m) = vocabulary m.
Proof.
  revert m. induction corpus as [|item corpus IH]; intros m; simpl; [auto|].
  destruct (IH (trainItem m item)) as (-> & -> & -> & -> & ->).
  apply trainItem_config.
Qed.

Lemma train_config (corpus : list Item.t) (m : model) :
  alpha (train corpus m) = alpha m
  /\ minDf (train corpus m) = minDf m
  /\ totalDocuments (train corpus m) = Z.of_nat (length corpus).
Proof.
  unfold train. destruct corpus as [|item corpus]; [simpl; auto|].
  cbn [setIsTrained buildVocabulary alpha minDf totalDocuments].
  destruct (trainItems_config (item :: corpus)
              (resetModel (Z.of_nat (length (item :: corpus))) m))
    as (-> & -> & _ & -> & _).
  simpl. auto.
Qed.

Lemma train_documentFrequency (corpus : list Item.t) (m : model) :
  documentFrequency (train corpus m)
  = documentFrequency
      (fold_left trainItem corpus (resetModel (Z.of_nat (length corpus)) m)).
Proof. unfold train. destruct corpus; reflexivity. Qed.

(** C3 (the part that holds). Training on an empty list empties every
    accumulator and returns before the trained flag is touched: the flag
    keeps the value it had. *)
Theorem train_empty_corpus (m : model) :
  vocabulary (train [] m) = JsMap.empty
  /\ documentFrequency (train [] m) = JsMap.empty
  /\ classWordCounts (train [] m) = PerClass JsMap.empty JsMap.empty
  /\ classTotalWords (train [] m) = PerClass 0 0
  /\ classDocCount (train [] m) = PerClass 0 0
  /\ totalDocuments (train [] m) = 0
  /\ isTrained (train [] m) = isTrained m.
Proof. repeat split. Qed.

(** C3 as stated fails: a model fresh from the constructor is still
    untrained after [train] on the empty list. *)
Lemma fresh_model_untrained_after_empty_train :
  isTrained (train [] newModel) <> true.
Proof. simpl. discriminate. Qed.

(** *** Document frequencies *)

Lemma trainItem_get_df (m : model) (item : Item.t) (w : string) :
  JsMap.get w (documentFrequency (trainItem m item))
  = if containsFeature w item then Some (recordedDf m w + 1)
    else JsMap.get w (documentFrequency m).
Proof.
  unfold trainItem, containsFeature, recordedDf.
  destruct (itemFeatures item) as [features|]; [|reflexivity].
  cbn [documentFrequency].
  rewrite (get_increments_NoDup _ _ _ (newSet_NoDup features)), memb_newSet.
  reflexivity.
Qed.

(** The entry of a feature after the loop: absent when no document of the
    list contains it and it was absent before, else the earlier value plus
    the number of documents containing it. *)
Lemma trainItems_get_df (corpus : list Item.t) (m : model) (w : string) :
  JsMap.get w (documentFrequency (fold_left trainItem corpus m))
  = match documentsContaining w corpus with
    | O => JsMap.get w (documentFrequency m)
    | S _ => Some (recordedDf m w + Z.of_nat (documentsContaining w corpus))
    end.
Proof.
  revert m. induction corpus as [|item corpus IH]; intros m; [reflexivity|].
  cbn [fold_left]. rewrite IH. unfold documentsContaining. cbn [filter].
  pose proof (trainItem_get_df m item w) as Hstep.
  unfold recordedDf, getOr0 in *.
  destruct (containsFeature w item) eqn:E; cbn [length].
  - rewrite Hstep.
    destruct (length (filter (containsFeature w) corpus)) as [|n]; f_equal; lia.
  - rewrite Hstep. reflexivity.
Qed.

Lemma documentsContaining_le (w : string) (corpus : list Item.t) :
  (documentsContaining w corpus <= length corpus)%nat.
Proof. unfold documentsContaining. apply filter_length_le. Qed.

Lemma train_get_df (corpus : list Item.t) (m : model) (w : string) :
  JsMap.get w (documentFrequency (train corpus m))
  = match documentsContaining w corpus with
    | O => None
    | S _ => Some (Z.of_nat (documentsContaining w corpus))
    end.
Proof.
  rewrite train_documentFrequency, trainItems_get_df.
  destruct (documentsContaining w corpus); reflexivity.
Qed.

(** C8. After [train], the document frequency recorded for a feature is the
    number of training documents that contain the feature at least once
    (there is no entry when that number is 0), however often the feature
    is repeated inside a document, and it is at most the document total. *)
Theorem documentFrequency_counts_documents
  (corpus : list Item.t) (m : model) (w : string) :
  recordedDf (train corpus m) w = Z.of_nat (documentsContaining w corpus)
  /\ (JsMap.has w (documentFrequency (train corpus m)) = true
      <-> (0 < documentsContaining w corpus)%nat)
  /\ recordedDf (train corpus m) w <= totalDocuments (train corpus m).
Proof.
  assert (Hdf : recordedDf (train corpus m) w
                = Z.of_nat (documentsContaining w corpus)).
  { unfold recordedDf, getOr0. rewrite train_get_df.
    destruct (documentsContaining w corpus); reflexivity. }
  split; [exact Hdf|]. split.
  - unfold JsMap.has. rewrite train_get_df.
    destruct (documentsContaining w corpus); split; intros H;
      solve [discriminate | lia | reflexivity].
  - rewrite Hdf. destruct (train_config corpus m) as (_ & _ & ->).
    pose proof (documentsContaining_le w corpus). lia.
Qed.

Example documentFrequency_ignores_repetition :
  let corpus :=
    [Item.make Spam None (Some "prize prize prize click");
     Item.make Ham None (Some "meeting notes prize");
     Item.make Ham None None] in
  recordedDf (train corpus newModel) "prize" = 2
  /\ recordedDf (train corpus newModel) "click" = 1
  /\ recordedDf (train corpus newModel) "absent" = 0
  /\ totalDocuments (train corpus newModel) = 3.
Proof. repeat split. Qed.

(** *** Training twice *)

Lemma trainItem_setIsTrained (b : bool) (m : model) (item : Item.t) :
  trainItem (setIsTrained b m) item = setIsTrained b (trainItem m item).
Proof. unfold trainItem. destruct (itemFeatures item); reflexivity. Qed.

Lemma trainItems_setIsTrained (b : bool) (corpus : list Item.t) (m : model) :
  fold_left trainItem corpus (setIsTrained b m)
  = setIsTrained b (fold_left trainItem corpus m).
Proof.
  revert m. induction corpus as [|item corpus IH]; intros m; simpl; [reflexivity|].
  rewrite trainItem_setIsTrained. apply IH.
Qed.

(** What [train] returns depends on the earlier state only through the two
    configuration fields and, for an empty list, the trained flag. *)
Lemma train_depends_on_config (corpus : list Item.t) (m m' : model) :
  alpha m = alpha m' ->
  minDf m = minDf m' ->
  (corpus = [] -> isTrained m = isTrained m') ->
  train corpus m = train corpus m'.
Proof.
  intros Ha Hd Ht. unfold train.
  destruct corpus as [|item corpus].
  - unfold resetModel. rewrite Ha, Hd, (Ht eq_refl). reflexivity.
  - set (n := Z.of_nat (length (item :: corpus))).
    assert (Hreset : resetModel n m
                     = setIsTrained (isTrained m) (resetModel n m')).
    { unfold resetModel, setIsTrained. simpl. rewrite Ha, Hd. reflexivity. }
    rewrite Hreset, trainItems_setIsTrained. reflexivity.
Qed.

Lemma train_idempotent (corpus : list Item.t) (m : model) :
  train corpus (train corpus m) = train corpus m.
Proof.
  destruct (train_config corpus m) as (Ha & Hd & _).
  apply train_depends_on_config; [exact Ha | exact Hd |].
  intros ->. reflexivity.
Qed.

(** C9. Training a model on a corpus and then once more on the same corpus
    gives the same snapshot as training it once; in particular for a model
    fresh from the constructor. *)
Theorem train_twice_same_snapshot (corpus : list Item.t) (m : model) :
  serialize (train corpus (train corpus m)) = serialize (train corpus m)
  /\ serialize (train corpus (train corpus newModel))
     = serialize (train corpus newModel).
Proof. rewrite !train_idempotent. split; reflexivity. Qed.

(** *** The vocabulary *)

Lemma has_set {V : Type} (m : JsMap.t V) (k w : string) (v : V) :
  JsMap.has w (JsMap.set k v m) = String.eqb k w || JsMap.has w m.
Proof.
  unfold JsMap.has. destruct (String.eqb_spec k w) as [->|Hne].
  - rewrite get_set_same. reflexivity.
  - rewrite (get_set_other _ _ _ _ Hne). reflexivity.
Qed.

Lemma vocabulary_loop_has (d : Z) (entries : list (string * Z))
  (vocab : JsMap.t Z) (idx : Z) (w : string) :
  JsMap.has w (fst (fold_left (vocabularyStep d) entries (vocab, idx)))
  = JsMap.has w vocab || existsb (passes d w) entries.
Proof.
  revert vocab idx.
  induction entries as [|[word df] entries IH]; intros vocab idx; simpl.
  - rewrite orb_false_r. reflexivity.
  - unfold passes at 1. simpl. destruct (d <=? df); rewrite IH.
    + rewrite has_set, andb_true_r.
      destruct (String.eqb word w), (JsMap.has w vocab); reflexivity.
    + rewrite andb_false_r. reflexivity.
Qed.

Lemma vocabulary_loop_distinct (d : Z) (entries : list (string * Z))
  (vocab : JsMap.t Z) (idx : Z) :
  distinctKeys vocab ->
  distinctKeys (fst (fold_left (vocabularyStep d) entries (vocab, idx))).
Proof.
  revert vocab idx.
  induction entries as [|[word df] entries IH]; intros vocab idx Hv; simpl.
  - exact Hv.
  - destruct (d <=? df); apply IH; [apply distinctKeys_set|]; exact Hv.
Qed.

Lemma passes_recorded (d : Z) (w : string) (df : JsMap.t Z) :
  distinctKeys df ->
  existsb (passes d w) df
  = JsMap.has w df && (d <=? getOr0 w df).
Proof.
  intros Hdf. unfold JsMap.has, getOr0.
  destruct (JsMap.get w df) as [v|] eqn:E.
  - simpl. destruct (d <=? v) eqn:Ev.
    + apply existsb_exists. exists (w, v). split; [apply get_In, E|].
      unfold passes. simpl. rewrite String.eqb_refl, Ev. reflexivity.
    + destruct (existsb (passes d w) df) eqn:Ex; [|reflexivity].
      apply existsb_exists in Ex. destruct Ex as [[k v'] [Hin Hp]].
      unfold passes in Hp. simpl in Hp. apply andb_prop in Hp.
      destruct Hp as [Hk Hv]. apply String.eqb_eq in Hk. subst k.
      rewrite (In_get _ _ _ Hdf Hin) in E. congruence.
  - simpl. destruct (existsb (passes d w) df) eqn:Ex; [|reflexivity].
    apply existsb_exists in Ex. destruct Ex as [[k v'] [Hin Hp]].
    unfold passes in Hp. simpl in Hp. apply andb_prop in Hp.
    destruct Hp as [Hk _]. apply String.eqb_eq in Hk. subst k.
    rewrite (In_get _ _ _ Hdf Hin) in E. discriminate.
Qed.

(** *** Every map of a trained model has distinct keys *)

Lemma trainItem_wellFormed (m : model) (item : Item.t) :
  wellFormed m -> wellFormed (trainItem m item).
Proof.
  unfold wellFormed, trainItem. intros (Hv & Hd & Hs & Hh).
  destruct (itemFeatures item) as [features|]; [|auto].
  cbn [vocabulary documentFrequency classWordCounts].
  split; [exact Hv|]. split; [apply distinctKeys_increments, Hd|].
  destruct (Item.label item); simpl;
    (split; [try exact Hs | try exact Hh]); apply distinctKeys_increments;
    assumption.
Qed.

Lemma trainItems_wellFormed (corpus : list Item.t) (m : model) :
  wellFormed m -> wellFormed (fold_left trainItem corpus m).
Proof.
  revert m. induction corpus as [|item corpus IH]; intros m Hm; simpl; [exact Hm|].
  apply IH, trainItem_wellFormed, Hm.
Qed.

Lemma resetModel_wellFormed (n : Z) (m : model) : wellFormed (resetModel n m).
Proof. repeat split; constructor. Qed.

Lemma train_wellFormed (corpus : list Item.t) (m : model) :
  wellFormed (train corpus m).
Proof.
  unfold train. destruct corpus as [|item corpus].
  - apply resetModel_wellFormed.
  - set (m1 := fold_left trainItem _ _).
    assert (H1 : wellFormed m1)
      by apply trainItems_wellFormed, resetModel_wellFormed.
    destruct H1 as (Hv & Hd & Hs & Hh).
    unfold wellFormed. cbn [setIsTrained buildVocabulary vocabulary
                              documentFrequency classWordCounts].
    repeat split; try assumption.
    apply vocabulary_loop_distinct, Hv.
Qed.

Lemma newModel_wellFormed : wellFormed newModel.
Proof. repeat split; constructor. Qed.

Lemma deserialize_wellFormed (data : option Snapshot.t) (m : model) :
  wellFormed m -> wellFormed (deserialize data m).
Proof.
  destruct data as [data|]; [intros _|auto].
  repeat split; apply distinctKeys_ofEntries.
Qed.

(** The vocabulary of a trained model holds exactly the features whose
    recorded document frequency reaches the minimum. *)
Lemma train_vocabulary_has (item : Item.t) (corpus : list Item.t)
  (m : model) (w : string) :
  let trained := train (item :: corpus) m in
  JsMap.has w (vocabulary trained)
  = JsMap.has w (documentFrequency trained)
    && (minDf trained <=? recordedDf trained w).
Proof.
  cbv zeta. unfold recordedDf.
  destruct (train_config (item :: corpus) m) as (_ & -> & _).
  unfold train. set (m0 := resetModel _ m).
  set (m1 := fold_left trainItem (item :: corpus) m0).
  cbn [setIsTrained buildVocabulary vocabulary documentFrequency].
  destruct (trainItems_config (item :: corpus) m0) as (_ & Hd & _ & _ & Hv).
  fold m1 in Hd, Hv. rewrite Hd, Hv. unfold m0 at 1 2. cbn [resetModel vocabulary minDf].
  rewrite vocabulary_loop_has. unfold JsMap.entries.
  apply passes_recorded.
  apply (trainItems_wellFormed (item :: corpus) m0 (resetModel_wellFormed _ m)).
Qed.

(** ** Prediction *)

Local Open Scope R_scope.

(** C5. On a model whose trained flag is false, [predict] returns the
    sentinel (label "unknown", probability 0, no scores) whatever the input:
    a raw string or a record, with or without fields. *)
Theorem predict_untrained (m : model) (x : input) :
  isTrained m = false ->
  predict m x = unknownPrediction
  /\ Prediction.label (predict m x) = "unknown"%string
  /\ Prediction.probability (predict m x) = 0
  /\ Prediction.scores (predict m x) = [].
Proof. unfold predict. intros ->. repeat split. Qed.

Lemma predict_untrained_witness :
  let x := Data (Email.make None None None None) in
  predict newModel x = unknownPrediction
  /\ Prediction.label (predict newModel x) = "unknown"%string
  /\ Prediction.probability (predict newModel x) = 0
  /\ Prediction.scores (predict newModel x) = [].
Proof. exact (predict_untrained newModel _ eq_refl). Defined.

Lemma predict_trained (m : model) (x : input) :
  isTrained m = true -> predict m x = predictFeatures m (inputFeatures x).
Proof. unfold predict. intros ->. reflexivity. Qed.

Lemma sumExp_pos (a b : R) : 0 < exp a + exp b.
Proof. pose proof (exp_pos a). pose proof (exp_pos b). lra. Qed.

Lemma normalize_sum (lp : perClass R) :
  spam (normalize lp) + ham (normalize lp) = 1.
Proof.
  unfold normalize. cbn [spam ham].
  set (mx := Rmax _ _).
  pose proof (sumExp_pos (spam lp - mx) (ham lp - mx)).
  field. lra.
Qed.

(** The shift by the larger log-score cancels: the normalized scores are
    the two exponentials over their sum. *)
Lemma normalize_softmax (lp : perClass R) :
  normalize lp
  = PerClass (exp (spam lp) / (exp (spam lp) + exp (ham lp)))
             (exp (ham lp) / (exp (spam lp) + exp (ham lp))).
Proof.
  unfold normalize. set (mx := Rmax _ _).
  assert (Hs : exp (spam lp - mx) = exp (spam lp) / exp mx).
  { unfold Rminus, Rdiv. rewrite exp_plus, exp_Ropp. reflexivity. }
  assert (Hh : exp (ham lp - mx) = exp (ham lp) / exp mx).
  { unfold Rminus, Rdiv. rewrite exp_plus, exp_Ropp. reflexivity. }
  rewrite Hs, Hh.
  pose proof (exp_pos mx). pose proof (sumExp_pos (spam lp) (ham lp)).
  f_equal; field; lra.
Qed.

(** C4. For a trained model the prediction carries one score per class,
    the two scores add up to 1, and the probability returned is the score
    of the label returned. *)
Theorem predict_scores_normalized (m : model) (x : input) :
  isTrained m = true ->
  exists pSpam pHam : R,
    Prediction.scores (predict m x)
    = [("spam"%string, pSpam); ("ham"%string, pHam)]
    /\ pSpam + pHam = 1
    /\ score (Prediction.label (predict m x)) (predict m x)
       = Some (Prediction.probability (predict m x)).
Proof.
  intros Ht. rewrite (predict_trained _ _ Ht).
  unfold predictFeatures, score.
  set (p := normalize _).
  exists (spam p), (ham p). split; [reflexivity|].
  split; [apply normalize_sum|].
  cbn [Prediction.label Prediction.probability Prediction.scores].
  destruct (Rgt_dec (spam p) (ham p)); reflexivity.
Qed.

(** C10. When the two normalized scores of a trained model's prediction
    are equal, the label is "ham": the comparison that selects "spam" is
    strict. *)
Theorem predict_tie_is_ham (m : model) (x : input) :
  isTrained m = true ->
  score "spam" (predict m x) = score "ham" (predict m x) ->
  Prediction.label (predict m x) = "ham"%string.
Proof.
  intros Ht. rewrite (predict_trained _ _ Ht).
  unfold predictFeatures, score.
  set (p := normalize _). clearbody p.
  simpl. intros [= Heq].
  destruct (Rgt_dec (spam p) (ham p)) as [Hgt|_]; [|reflexivity].
  rewrite Heq in Hgt. exfalso. exact (Rlt_irrefl _ Hgt).
Qed.

(** A feature outside the vocabulary adds nothing to a log-score. *)
Lemma logProbSkipping_unlisted (w : string) (m : model)
  (tfidfVec : JsMap.t R) (l : label) :
  JsMap.has w (vocabulary m) = false ->
  logProbSkipping w m tfidfVec l = logProb m tfidfVec l.
Proof.
  intros Hw. unfold logProbSkipping, logProb.
  generalize (ln (priorProb m l)).
  induction tfidfVec as [|[k v] vec IH]; intros acc; simpl; [reflexivity|].
  destruct (String.eqb_spec k w) as [->|_]; [|apply IH].
  replace (logProbStep m l acc (w, v)) with acc
    by (unfold logProbStep; cbn [fst snd]; rewrite Hw; reflexivity).
  apply IH.
Qed.

(** C6. After [train], a feature whose recorded document frequency is
    below the configured minimum is not in the vocabulary, and in every
    later prediction both log-scores equal the ones computed with that
    feature's term left out. *)
Theorem vocabulary_gating (corpus : list Item.t) (m0 : model) (w : string) :
  let m := train corpus m0 in
  (recordedDf m w < minDf m)%Z ->
  JsMap.has w (vocabulary m) = false
  /\ forall (features : list string) (l : label),
       logProb m (tfidfFromFeatures m features) l
       = logProbSkipping w m (tfidfFromFeatures m features) l.
Proof.
  cbv zeta. intros Hlt.
  assert (Hw : JsMap.has w (vocabulary (train corpus m0)) = false).
  { destruct corpus as [|item corpus]; [reflexivity|].
    rewrite train_vocabulary_has.
    apply andb_false_iff. right. apply Z.leb_gt. exact Hlt. }
  split; [exact Hw|]. intros features l. symmetry.
  apply logProbSkipping_unlisted, Hw.
Qed.

(** ** A token outside the vocabulary *)

Lemma get_otherThan {V : Type} (z k : string) (m : JsMap.t V) :
  k <> z -> JsMap.get k (otherThan z m) = JsMap.get k m.
Proof.
  intros Hne. induction m as [|[k' v'] r IH]; simpl; [reflexivity|].
  destruct (String.eqb_spec k' z) as [->|Hk']; simpl.
  - destruct (String.eqb_spec k z); [contradiction | exact IH].
  - rewrite IH. reflexivity.
Qed.

Lemma otherThan_set {V : Type} (z k : string) (v : V) (m : JsMap.t V) :
  otherThan z (JsMap.set k v m)
  = if String.eqb k z then otherThan z m else JsMap.set k v (otherThan z m).
Proof.
  induction m as [|[k' v'] r IH]; simpl.
  - destruct (String.eqb k z); reflexivity.
  - destruct (String.eqb_spec k k') as [->|Hkk']; simpl.
    + destruct (String.eqb k' z); simpl; [reflexivity|].
      rewrite String.eqb_refl. reflexivity.
    + rewrite IH. destruct (String.eqb_spec k z) as [Hkz|Hkz];
        destruct (String.eqb_spec k' z) as [Hk'z|Hk'z]; simpl;
        try reflexivity; try congruence.
      destruct (String.eqb_spec k k'); [congruence | reflexivity].
Qed.

Lemma otherThan_increments (z : string) (words : list string) (m : JsMap.t Z) :
  otherThan z (fold_left increment words m)
  = fold_left increment
      (filter (fun w => negb (String.eqb w z)) words) (otherThan z m).
Proof.
  revert m. induction words as [|w words IH]; intros m; simpl; [reflexivity|].
  rewrite IH. unfold increment at 2. rewrite otherThan_set.
  destruct (String.eqb_spec w z) as [->|Hne]; simpl; [reflexivity|].
  unfold increment at 3, getOr0. rewrite (get_otherThan _ _ _ Hne). reflexivity.
Qed.

Lemma filter_insert (z : string) (l1 l2 : list string) :
  filter (fun w => negb (String.eqb w z)) (l1 ++ z :: l2)
  = filter (fun w => negb (String.eqb w z)) (l1 ++ l2).
Proof.
  rewrite !filter_app. simpl. rewrite String.eqb_refl. reflexivity.
Qed.

(** The counts of the other words do not change when [z] is added. *)
Lemma counts_insert (z : string) (l1 l2 : list string) :
  otherThan z (fold_left increment (l1 ++ z :: l2) JsMap.empty)
  = otherThan z (fold_left increment (l1 ++ l2) JsMap.empty).
Proof. rewrite !otherThan_increments, filter_insert. reflexivity. Qed.

Lemma tfidfFromFeatures_weigh (m : model) (features : list string) :
  tfidfFromFeatures m features
  = map (weigh m (docLength features))
        (fold_left increment features JsMap.empty).
Proof.
  unfold tfidfFromFeatures, termFrequency. rewrite map_map. reflexivity.
Qed.

Lemma otherThan_weigh (m : model) (d : Z) (z : string) (counts : JsMap.t Z) :
  otherThan z (map (weigh m d) counts) = map (weigh m d) (otherThan z counts).
Proof.
  induction counts as [|[k c] counts IH]; simpl; [reflexivity|].
  destruct (String.eqb k z); simpl; rewrite IH; reflexivity.
Qed.

Lemma docLength_nonempty (words : list string) :
  words <> [] -> docLength words = Z.of_nat (length words).
Proof. destruct words; [congruence | reflexivity]. Qed.

Local Open Scope R_scope.

(** The scoring loop skips the entry of a word outside the vocabulary. *)
Lemma logProb_otherThan (m : model) (z : string) (tfidfVec : JsMap.t R)
  (l : label) (acc : R) :
  JsMap.has z (vocabulary m) = false ->
  fold_left (logProbStep m l) tfidfVec acc
  = fold_left (logProbStep m l) (otherThan z tfidfVec) acc.
Proof.
  intros Hz. revert acc.
  induction tfidfVec as [|[k v] vec IH]; intros acc; simpl; [reflexivity|].
  destruct (String.eqb_spec k z) as [->|_]; simpl; [|apply IH].
  replace (logProbStep m l acc (z, v)) with acc
    by (unfold logProbStep; cbn [fst snd]; rewrite Hz; reflexivity).
  apply IH.
Qed.

(** The scoring loop adds the weighted sum divided by the document
    length. *)
Lemma logProb_weightedSum (m : model) (l : label) (d : Z)
  (counts : JsMap.t Z) (acc : R) :
  fold_left (logProbStep m l) (map (weigh m d) counts) acc
  = acc + weightedSum m l counts / IZR d.
Proof.
  revert acc. induction counts as [|[k c] counts IH]; intros acc; simpl.
  - unfold Rdiv. ring.
  - rewrite IH. unfold logProbStep. cbn [fst snd weigh].
    destruct (JsMap.has k (vocabulary m)); simpl; unfold Rdiv; ring.
Qed.

Lemma logProb_unlisted (m : model) (z : string) (features : list string)
  (l : label) :
  JsMap.has z (vocabulary m) = false ->
  logProb m (tfidfFromFeatures m features) l
  = ln (priorProb m l)
    + weightedSum m l (otherThan z (fold_left increment features JsMap.empty))
      / IZR (docLength features).
Proof.
  intros Hz. unfold logProb.
  rewrite tfidfFromFeatures_weigh, (logProb_otherThan _ _ _ _ _ Hz),
    otherThan_weigh.
  apply logProb_weightedSum.
Qed.

Lemma logProb_insert_unlisted (m : model) (l1 l2 : list string) (z : string)
  (l : label) :
  JsMap.has z (vocabulary m) = false ->
  let n := INR (length (l1 ++ l2)) in
  logProb m (tfidfFromFeatures m (l1 ++ z :: l2)) l
  = ln (priorProb m l)
    + n / (n + 1)
      * (logProb m (tfidfFromFeatures m (l1 ++ l2)) l - ln (priorProb m l)).
Proof.
  intros Hz n.
  rewrite (logProb_unlisted _ _ (l1 ++ z :: l2) _ Hz),
    (logProb_unlisted _ _ (l1 ++ l2) _ Hz), counts_insert.
  set (S := weightedSum m l _).
  assert (Hlen : IZR (docLength (l1 ++ z :: l2)) = n + 1).
  { unfold n. rewrite <- S_INR, INR_IZR_INZ. f_equal.
    rewrite docLength_nonempty by (destruct l1; discriminate).
    rewrite !length_app. simpl. f_equal. lia. }
  rewrite Hlen.
  assert (Hn : 0 <= n) by (unfold n; apply pos_INR).
  destruct (l1 ++ l2) as [|w ws] eqn:E.
  - (* nothing but the new token: both sums are empty *)
    unfold S, n. simpl. unfold Rdiv. ring.
  - assert (Hd : IZR (docLength (w :: ws)) = n).
    { unfold n, docLength. rewrite INR_IZR_INZ. reflexivity. }
    rewrite Hd.
    assert (Hpos : 0 < n).
    { unfold n. apply lt_0_INR. simpl. lia. }
    field. lra.
Qed.

(** C2 (the part that holds). For a model and a feature sequence of length
    [n], adding one token that is not in the vocabulary (anywhere in the
    sequence) still gives a proper prediction, and the token adds no term of
    its own; but the term frequencies are divided by the length of the
    sequence, so for each class the part of the log-score that comes after
    the log-prior is multiplied by [n / (n + 1)]. *)
Theorem unseen_token_rescales (m : model) (l1 l2 : list string) (z : string) :
  JsMap.has z (vocabulary m) = false ->
  let n := INR (length (l1 ++ l2)) in
  (forall l : label,
     logProb m (tfidfFromFeatures m (l1 ++ z :: l2)) l
     = ln (priorProb m l)
       + n / (n + 1)
         * (logProb m (tfidfFromFeatures m (l1 ++ l2)) l - ln (priorProb m l)))
  /\ exists pSpam pHam : R,
       Prediction.scores (predictFeatures m (l1 ++ z :: l2))
       = [("spam"%string, pSpam); ("ham"%string, pHam)]
       /\ pSpam + pHam = 1.
Proof.
  intros Hz n. split.
  - intros l. apply logProb_insert_unlisted, Hz.
  - unfold predictFeatures. cbn [Prediction.scores scoresObject].
    eexists _, _. split; [reflexivity | apply normalize_sum].
Qed.

Lemma unseen_token_rescales_witness :
  let m := train smallCorpus newModel in
  let n := INR (length (["aa"%string] ++ [])) in
  (forall l : label,
     logProb m (tfidfFromFeatures m (["aa"%string] ++ "zz"%string :: [])) l
     = ln (priorProb m l)
       + n / (n + 1)
         * (logProb m (tfidfFromFeatures m (["aa"%string] ++ [])) l
            - ln (priorProb m l)))
  /\ exists pSpam pHam : R,
       Prediction.scores (predictFeatures m (["aa"%string] ++ "zz"%string :: []))
       = [("spam"%string, pSpam); ("ham"%string, pHam)]
       /\ pSpam + pHam = 1.
Proof.
  exact (unseen_token_rescales (train smallCorpus newModel)
           ["aa"%string] [] "zz"%string eq_refl).
Defined.

(** Equal spam scores mean equal gaps between the two log-scores. *)
Lemma normalize_spam_inj (lp lp' : perClass R) :
  spam (normalize lp) = spam (normalize lp') ->
  spam lp + ham lp' = spam lp' + ham lp.
Proof.
  rewrite !normalize_softmax. cbn [spam].
  set (a := exp (spam lp)). set (b := exp (ham lp)).
  set (a' := exp (spam lp')). set (b' := exp (ham lp')).
  assert (Ha : 0 < a) by apply exp_pos. assert (Hb : 0 < b) by apply exp_pos.
  assert (Ha' : 0 < a') by apply exp_pos. assert (Hb' : 0 < b') by apply exp_pos.
  intros H.
  assert (E : a * (a' + b') = a' * (a + b)).
  { replace (a * (a' + b')) with (a / (a + b) * ((a + b) * (a' + b')))
      by (field; lra).
    rewrite H. field. lra. }
  assert (E' : a * b' = a' * b) by (ring_simplify in E; lra).
  apply exp_inv. rewrite !exp_plus. exact E'.
Qed.

Lemma predictFeatures_scores_gap (m m' : model) (f f' : list string) :
  Prediction.scores (predictFeatures m f)
  = Prediction.scores (predictFeatures m' f') ->
  spam (logProbs m f) + ham (logProbs m' f')
  = spam (logProbs m' f') + ham (logProbs m f).
Proof.
  unfold predictFeatures. cbn [Prediction.scores scoresObject].
  generalize (logProbs m f) (logProbs m' f'). intros lp lp' H.
  apply normalize_spam_inj. injection H as Hspam _. exact Hspam.
Qed.

(** C2 as stated fails: the model trained on [smallCorpus] never saw "zz",
    and the scores for "aa zz" differ from the scores for "aa". *)
Lemma unseen_token_changes_posterior :
  let m := train smallCorpus newModel in
  isTrained m = true
  /\ documentsContaining "zz" smallCorpus = 0%nat
  /\ recordedDf m "zz" = 0%Z
  /\ JsMap.has "zz" (vocabulary m) = false
  /\ inputFeatures (Text "aa zz") = ["aa"; "zz"]%string
  /\ inputFeatures (Text "aa") = ["aa"]%string
  /\ Prediction.scores (predict m (Text "aa zz"))
     <> Prediction.scores (predict m (Text "aa")).
Proof.
  cbv zeta. do 6 (split; [reflexivity|]).
  rewrite !predict_trained by reflexivity.
  intros H. apply predictFeatures_scores_gap in H. rename H into Hspam.
  change (logProbs (train smallCorpus newModel) (inputFeatures (Text "aa zz")))
    with (PerClass
            (ln ((1 + 1) / (2 + 2 * 1))
             + ln ((1 + 1) / (1 + 1 * 1)) * (1 / 2 * (ln ((2 + 1) / (2 + 1)) + 1)))
            (ln ((1 + 1) / (2 + 2 * 1))
             + ln ((1 + 1) / (2 + 1 * 1)) * (1 / 2 * (ln ((2 + 1) / (2 + 1)) + 1))))
    in Hspam.
  change (logProbs (train smallCorpus newModel) (inputFeatures (Text "aa")))
    with (PerClass
            (ln ((1 + 1) / (2 + 2 * 1))
             + ln ((1 + 1) / (1 + 1 * 1)) * (1 / 1 * (ln ((2 + 1) / (2 + 1)) + 1)))
            (ln ((1 + 1) / (2 + 2 * 1))
             + ln ((1 + 1) / (2 + 1 * 1)) * (1 / 1 * (ln ((2 + 1) / (2 + 1)) + 1))))
    in Hspam.
  cbn [spam ham] in Hspam.
  replace ((1 + 1) / (1 + 1 * 1)) with 1 in Hspam by field.
  replace ((2 + 1) / (2 + 1)) with 1 in Hspam by field.
  rewrite ln_1 in Hspam.
  assert (Hneg : ln ((1 + 1) / (2 + 1 * 1)) < 0).
  { rewrite <- ln_1. apply ln_increasing; lra. }
  lra.
Qed.

(** ** Snapshots *)

(** Importing the snapshot of [m] into any instance restores every
    accumulator, the counts and the flag; the two configuration fields are
    not part of a snapshot and stay those of the importing instance. *)
Lemma deserialize_serialize (m target : model) :
  wellFormed m ->
  deserialize (Some (serialize m)) target
  = withMinDf (minDf target) (withAlpha (alpha target) m).
Proof.
  intros (Hv & Hd & Hs & Hh).
  unfold deserialize, serialize, withMinDf, withAlpha, wordCountsOf.
  cbn -[JsMap.ofEntries].
  rewrite !ofEntries_entries by assumption.
  destruct m as [v d n cd [ws wh] ct a md t]. reflexivity.
Qed.

(** [predict] never reads the minimum document frequency. *)
Lemma predict_withMinDf (d : Z) (m : model) (x : input) :
  predict (withMinDf d m) x = predict m x.
Proof. reflexivity. Qed.

Lemma withAlpha_same (m : model) : withAlpha (alpha m) m = m.
Proof. destruct m. reflexivity. Qed.

Lemma roundtrip_predict (m target : model) (x : input) :
  wellFormed m ->
  alpha m = alpha target ->
  predict (deserialize (Some (serialize m)) target) x = predict m x.
Proof.
  intros Hm Ha. rewrite (deserialize_serialize _ _ Hm), predict_withMinDf.
  rewrite <- Ha, withAlpha_same. reflexivity.
Qed.

(** C1 (the part that holds). A snapshot holds neither the smoothing
    constant nor the minimum document frequency.  For every model whose
    smoothing constant is the constructor's (1.0), whatever its minimum
    document frequency, a fresh model into which the model's snapshot is
    imported predicts exactly as the model does, on every input. *)
Theorem snapshot_roundtrip_predict (m : model) (x : input) :
  wellFormed m ->
  alpha m = alpha newModel ->
  predict (deserialize (Some (serialize m)) newModel) x = predict m x.
Proof. intros Hm Ha. apply roundtrip_predict; assumption. Qed.

Lemma snapshot_roundtrip_predict_witness :
  let m := train smallCorpus (withMinDf 1 newModel) in
  let x := Data (Email.make None (Some "bob@corp.org") (Some "aa") (Some "bb")) in
  predict (deserialize (Some (serialize m)) newModel) x = predict m x.
Proof.
  refine (snapshot_roundtrip_predict
            (train smallCorpus (withMinDf 1 newModel)) _ _ eq_refl).
  unfold wellFormed, distinctKeys. simpl.
  repeat split; repeat constructor; simpl; intuition discriminate.
Defined.

Lemma normalize_of_ln (a b : R) :
  0 < a -> 0 < b ->
  normalize (PerClass (ln a) (ln b)) = PerClass (a / (a + b)) (b / (a + b)).
Proof.
  intros Ha Hb. rewrite normalize_softmax. cbn [spam ham].
  rewrite !exp_ln by assumption. reflexivity.
Qed.

(** C1 as stated fails: [alphaTwoModel] was trained with smoothing constant
    2; its snapshot, imported into a fresh model, is scored with the
    constant 1. *)
Lemma snapshot_roundtrip_loses_alpha :
  alpha alphaTwoModel = 2
  /\ wellFormed alphaTwoModel
  /\ predict (deserialize (Some (serialize alphaTwoModel)) newModel) (Text "hello")
     <> predict alphaTwoModel (Text "hello").
Proof.
  split; [reflexivity|]. split; [apply train_wellFormed|].
  intros H. apply (f_equal Prediction.probability) in H.
  rewrite !predict_trained in H by reflexivity.
  unfold predictFeatures in H. cbn [Prediction.probability] in H.
  change (logProbs (deserialize (Some (serialize alphaTwoModel)) newModel)
            (inputFeatures (Text "hello")))
    with (PerClass (ln ((1 + 1) / (1 + 2 * 1))) (ln ((0 + 1) / (1 + 2 * 1))))
    in H.
  change (logProbs alphaTwoModel (inputFeatures (Text "hello")))
    with (PerClass (ln ((1 + 2) / (1 + 2 * 2))) (ln ((0 + 2) / (1 + 2 * 2))))
    in H.
  rewrite !normalize_of_ln in H by lra.
  cbn [spam ham] in H.
  destruct (Rgt_dec _ _) as [_|Hn] in H; [|apply Hn; lra].
  destruct (Rgt_dec _ _) as [_|Hn] in H; [|apply Hn; lra].
  cbn [at_label spam] in H. lra.
Qed.

(** ** Instances of the conditional theorems *)

Lemma predict_scores_normalized_witness :
  let m := train smallCorpus newModel in
  let x := Text "aa bb cc" in
  exists pSpam pHam : R,
    Prediction.scores (predict m x)
    = [("spam"%string, pSpam); ("ham"%string, pHam)]
    /\ pSpam + pHam = 1
    /\ score (Prediction.label (predict m x)) (predict m x)
       = Some (Prediction.probability (predict m x)).
Proof.
  exact (predict_scores_normalized (train smallCorpus newModel)
           (Text "aa bb cc") eq_refl).
Defined.

Lemma predict_tie_is_ham_witness :
  Prediction.label (predict (train tieCorpus newModel) (Text "aa"))
  = "ham"%string.
Proof.
  exact (predict_tie_is_ham (train tieCorpus newModel) (Text "aa")
           eq_refl eq_refl).
Defined.

Lemma vocabulary_gating_witness :
  let m := train smallCorpus newModel in
  JsMap.has "bb" (vocabulary m) = false
  /\ forall (features : list string) (l : label),
       logProb m (tfidfFromFeatures m features) l
       = logProbSkipping "bb" m (tfidfFromFeatures m features) l.
Proof.
  exact (vocabulary_gating smallCorpus newModel "bb"%string eq_refl).
Defined.

(** ** The arithmetic of [predict] stays inside its domain

    With a positive smoothing constant and the counters that [train]
    produces, every logarithm of [predict] is taken of a positive number and
    no divisor is zero, so the real-number functions above compute what the
    source computes, rounding apart. *)

Local Open Scope Z_scope.

Lemma getOr0_nonneg (m : JsMap.t Z) (w : string) :
  nonnegValues m -> 0 <= getOr0 w m.
Proof.
  unfold getOr0. intros Hm.
  destruct (JsMap.get w m) as [v|] eqn:E; [|lia].
  apply get_In in E. unfold nonnegValues in Hm. rewrite Forall_forall in Hm.
  exact (Hm _ E).
Qed.

Lemma nonnegValues_set (m : JsMap.t Z) (k : string) (v : Z) :
  0 <= v -> nonnegValues m -> nonnegValues (JsMap.set k v m).
Proof.
  intros Hv. unfold nonnegValues.
  induction m as [|[k' v'] r IH]; simpl; intros Hm.
  - constructor; [exact Hv | constructor].
  - inversion Hm as [|? ? Hhd Htl]; subst.
    destruct (String.eqb k k'); constructor; auto.
Qed.

Lemma nonnegValues_increments (words : list string) (m : JsMap.t Z) :
  nonnegValues m -> nonnegValues (fold_left increment words m).
Proof.
  revert m. induction words as [|w words IH]; intros m Hm; simpl; [exact Hm|].
  apply IH. unfold increment. apply nonnegValues_set; [|exact Hm].
  pose proof (getOr0_nonneg m w Hm). lia.
Qed.

Lemma trainItem_countsNonneg (m : model) (item : Item.t) :
  countsNonneg m -> countsNonneg (trainItem m item).
Proof.
  unfold countsNonneg, trainItem. intros (Hn & Hd & Ht & Hw & Hdf).
  destruct (itemFeatures item) as [features|]; [|auto].
  cbn [totalDocuments classDocCount classTotalWords classWordCounts
       documentFrequency].
  split; [exact Hn|].
  split; [|split; [|split]].
  - intros l. pose proof (Hd Spam). pose proof (Hd Ham).
    destruct (Item.label item), l; simpl in *; lia.
  - intros l. pose proof (Ht Spam). pose proof (Ht Ham).
    destruct (Item.label item), l; simpl in *; lia.
  - intros l. pose proof (Hw Spam). pose proof (Hw Ham).
    destruct (Item.label item), l; simpl in *;
      try assumption; apply nonnegValues_increments; assumption.
  - apply nonnegValues_increments, Hdf.
Qed.

Lemma train_countsNonneg (corpus : list Item.t) (m : model) :
  countsNonneg (train corpus m).
Proof.
  assert (Hreset : countsNonneg (resetModel (Z.of_nat (length corpus)) m)).
  { unfold countsNonneg. simpl. split; [lia|].
    split; [intros []; simpl; lia|]. split; [intros []; simpl; lia|].
    split; [intros []; constructor | constructor]. }
  assert (Hloop : forall c m', countsNonneg m' ->
                               countsNonneg (fold_left trainItem c m')).
  { induction c as [|item c IH]; intros m' Hm'; simpl; [exact Hm'|].
    apply IH, trainItem_countsNonneg, Hm'. }
  unfold train. destruct corpus as [|item corpus]; [exact Hreset|].
  exact (Hloop _ _ Hreset).
Qed.

Lemma vocabSize_positive (m : model) : 1 <= vocabSize m.
Proof.
  unfold vocabSize, JsMap.size.
  destruct (Z.eqb_spec (Z.of_nat (length (vocabulary m))) 0); lia.
Qed.

Local Open Scope R_scope.

Lemma scoring_in_domain (m : model) (l : label) (w : string) :
  0 < alpha m ->
  countsNonneg m ->
  0 < priorProb m l
  /\ 0 < wordProb m l w
  /\ 0 < (IZR (totalDocuments m) + 1) / (IZR (recordedDf m w) + 1).
Proof.
  intros Ha (Hn & Hd & Ht & Hw & Hdf).
  pose proof (IZR_le _ _ Hn) as Hn'.
  pose proof (IZR_le _ _ (Hd l)) as Hd'.
  pose proof (IZR_le _ _ (Ht l)) as Ht'.
  pose proof (IZR_le _ _ (getOr0_nonneg _ w (Hw l))) as Hw'.
  pose proof (IZR_le _ _ (getOr0_nonneg _ w Hdf)) as Hdf'.
  pose proof (IZR_le _ _ (vocabSize_positive m)) as Hv'.
  unfold priorProb, wordProb, recordedDf.
  repeat split; apply Rdiv_lt_0_compat; try lra.
  assert (0 < alpha m * IZR (vocabSize m)) by (apply Rmult_lt_0_compat; lra).
  lra.
Qed.

(** In particular for every model trained from the constructor's state. *)
Lemma trained_scoring_in_domain (corpus : list Item.t) (l : label) (w : string) :
  let m := train corpus newModel in
  0 < priorProb m l
  /\ 0 < wordProb m l w
  /\ 0 < (IZR (totalDocuments m) + 1) / (IZR (recordedDf m w) + 1).
Proof.
  cbv zeta. apply scoring_in_domain; [|apply train_countsNonneg].
  destruct (train_config corpus newModel) as (-> & _). simpl. lra.
Qed.

(** * Further properties of the classifier *)

Local Close Scope R_scope.
Local Close Scope Z_scope.

(** ** The shape of a token *)














Lemma chars_str (l : list ascii) : chars (str l) = l.
Proof. apply list_ascii_of_string_of_list_ascii. Qed.

Lemma length_str (l : list ascii) : String.length (str l) = length l.
Proof.
  unfold str. induction l as [|c l IH]; simpl; [reflexivity|].
  rewrite IH. reflexivity.
Qed.



(** ** What [train] accumulates per class *)

Local Open Scope Z_scope.

Lemma occurrences_app (w : string) (a b : list string) :
  occurrences w (a ++ b) = (occurrences w a + occurrences w b)%nat.
Proof. unfold occurrences. rewrite filter_app, length_app. reflexivity. Qed.

Lemma increments_getOr0 (w : string) (features : list string) (m : JsMap.t Z) :
  getOr0 w (fold_left increment features m)
  = getOr0 w m + Z.of_nat (occurrences w features).
Proof.
  revert m. induction features as [|f features IH]; intros m; simpl; [lia|].
  rewrite IH. unfold getOr0 at 1. rewrite get_increment.
  unfold occurrences. simpl. rewrite (String.eqb_sym w f).
  destruct (String.eqb f w); simpl; [|unfold getOr0]; lia.
Qed.

Lemma sumValues_set (m : JsMap.t Z) (k : string) (v : Z) :
  sumValues (JsMap.set k v m) = sumValues m + v - getOr0 k m.
Proof.
  unfold getOr0. induction m as [|[k' v'] r IH]; simpl; [lia|].
  destruct (String.eqb k k'); simpl; [lia|]. rewrite IH. lia.
Qed.

Lemma increments_sumValues (features : list string) (m : JsMap.t Z) :
  sumValues (fold_left increment features m)
  = sumValues m + Z.of_nat (length features).
Proof.
  revert m. induction features as [|f features IH]; intros m; [simpl; lia|].
  cbn [fold_left length]. rewrite IH. unfold increment.
  rewrite sumValues_set. lia.
Qed.

Lemma trainItem_class (m : model) (item : Item.t) (l : label) :
  at_label (classWordCounts (trainItem m item)) l
  = fold_left increment (itemFeaturesFor l item)
              (at_label (classWordCounts m) l)
  /\ at_label (classTotalWords (trainItem m item)) l
     = at_label (classTotalWords m) l
       + Z.of_nat (length (itemFeaturesFor l item))
  /\ at_label (classDocCount (trainItem m item)) l
     = at_label (classDocCount m) l
       + (if processed item && labelEqb (Item.label item) l then 1 else 0).
Proof.
  unfold trainItem, itemFeaturesFor, processed.
  destruct (itemFeatures item) as [features|].
  - cbn [classWordCounts classTotalWords classDocCount].
    destruct (Item.label item), l; simpl; repeat split; lia.
  - destruct (labelEqb (Item.label item) l); simpl; repeat split; lia.
Qed.

Lemma trainItems_class (corpus : list Item.t) (m : model) (l : label) :
  at_label (classWordCounts (fold_left trainItem corpus m)) l
  = fold_left increment (classFeatures l corpus)
              (at_label (classWordCounts m) l)
  /\ at_label (classTotalWords (fold_left trainItem corpus m)) l
     = at_label (classTotalWords m) l
       + Z.of_nat (length (classFeatures l corpus))
  /\ at_label (classDocCount (fold_left trainItem corpus m)) l
     = at_label (classDocCount m) l + Z.of_nat (classDocuments l corpus).
Proof.
  revert m. induction corpus as [|item corpus IH]; intros m.
  - simpl. repeat split; lia.
  - cbn [fold_left]. destruct (IH (trainItem m item)) as (-> & -> & ->).
    destruct (trainItem_class m item l) as (-> & -> & ->).
    unfold classFeatures, classDocuments. cbn [flat_map filter].
    rewrite fold_left_app, length_app. split; [reflexivity|].
    destruct (processed item && labelEqb (Item.label item) l); cbn [length];
      split; lia.
Qed.

Lemma train_class_fields (corpus : list Item.t) (m : model) :
  let looped :=
    fold_left trainItem corpus (resetModel (Z.of_nat (length corpus)) m) in
  classWordCounts (train corpus m) = classWordCounts looped
  /\ classTotalWords (train corpus m) = classTotalWords looped
  /\ classDocCount (train corpus m) = classDocCount looped.
Proof. unfold train. destruct corpus; repeat split. Qed.

Lemma train_class (corpus : list Item.t) (m : model) (l : label) :
  at_label (classWordCounts (train corpus m)) l
  = fold_left increment (classFeatures l corpus) JsMap.empty
  /\ at_label (classTotalWords (train corpus m)) l
     = Z.of_nat (length (classFeatures l corpus))
  /\ at_label (classDocCount (train corpus m)) l
     = Z.of_nat (classDocuments l corpus).
Proof.
  destruct (train_class_fields corpus m) as (-> & -> & ->).
  destruct (trainItems_class corpus
              (resetModel (Z.of_nat (length corpus)) m) l) as (-> & -> & ->).
  destruct l; simpl; repeat split; lia.
Qed.

Lemma classDocuments_total (corpus : list Item.t) :
  (classDocuments Spam corpus + classDocuments Ham corpus
   = length (filter processed corpus))%nat.
Proof.
  unfold classDocuments. induction corpus as [|item corpus IH]; [reflexivity|].
  cbn [filter]. destruct (processed item), (Item.label item); simpl; lia.
Qed.

(** X2. After [train], the document count of each class is the number of
    items of that class that were not skipped; the two counts together are
    at most the document total (the length of the training list), and equal
    to it exactly when no item is skipped, that is, when every item carries
    an email record or a non-empty text. *)
Theorem train_class_document_counts (corpus : list Item.t) (m : model) :
  let trained := train corpus m in
  (forall l, at_label (classDocCount trained) l
             = Z.of_nat (classDocuments l corpus))
  /\ spam (classDocCount trained) + ham (classDocCount trained)
     = Z.of_nat (length (filter processed corpus))
  /\ spam (classDocCount trained) + ham (classDocCount trained)
     <= totalDocuments trained
  /\ (forallb processed corpus = true <->
      spam (classDocCount trained) + ham (classDocCount trained)
      = totalDocuments trained).
Proof.
  cbv zeta.
  assert (Hl : forall l, at_label (classDocCount (train corpus m)) l
                         = Z.of_nat (classDocuments l corpus))
    by (intros l; apply train_class).
  assert (Hsum : spam (classDocCount (train corpus m))
                 + ham (classDocCount (train corpus m))
                 = Z.of_nat (length (filter processed corpus))).
  { pose proof (Hl Spam) as Hs. pose proof (Hl Ham) as Hh. simpl in Hs, Hh.
    rewrite Hs, Hh, <- classDocuments_total. lia. }
  destruct (train_config corpus m) as (_ & _ & Hn).
  pose proof (filter_length_le processed corpus) as Hle.
  repeat split; try assumption.
  - rewrite Hsum, Hn. lia.
  - intros Hall. rewrite Hsum, Hn. f_equal. f_equal.
    apply forallb_filter_id, Hall.
  - intros Heq. rewrite Hsum, Hn in Heq. apply Nat2Z.inj in Heq.
    clear -Heq. induction corpus as [|item corpus IH]; [reflexivity|].
    simpl in *. destruct (processed item); simpl in *.
    + apply IH. lia.
    + pose proof (filter_length_le processed corpus). lia.
Qed.

Example train_counts_skipped_item :
  let corpus := [Item.make Spam None (Some "aa"); Item.make Ham None None] in
  totalDocuments (train corpus newModel) = 2
  /\ classDocCount (train corpus newModel) = PerClass 1 0.
Proof. split; reflexivity. Qed.

(** X3. After [train], the count a class records for a word is the number
    of times the word occurs among all features of the (not skipped)
    documents of the class, repetitions inside a document included; the
    class's word total is the number of all those feature instances, and it
    is the sum of the class's per-word counts. *)
Theorem train_class_word_counts
  (corpus : list Item.t) (m : model) (l : label) (w : string) :
  let trained := train corpus m in
  getOr0 w (at_label (classWordCounts trained) l)
  = Z.of_nat (occurrences w (classFeatures l corpus))
  /\ at_label (classTotalWords trained) l
     = Z.of_nat (length (classFeatures l corpus))
  /\ at_label (classTotalWords trained) l
     = sumValues (at_label (classWordCounts trained) l).
Proof.
  cbv zeta. destruct (train_class corpus m l) as (Hw & Ht & _).
  rewrite Hw, Ht, increments_getOr0, increments_sumValues.
  repeat split; reflexivity.
Qed.

(** ** The vocabulary after [train] *)

Lemma vocabulary_loop_numbered (d : Z) (entries : list (string * Z))
  (vocab : JsMap.t Z) (idx : Z) :
  NoDup (JsMap.keys vocab ++ JsMap.keys entries) ->
  fst (fold_left (vocabularyStep d) entries (vocab, idx))
  = vocab ++ numbered idx
               (JsMap.keys (filter (fun entry => d <=? snd entry) entries)).
Proof.
  revert vocab idx.
  induction entries as [|[word df] entries IH]; intros vocab idx Hnd; simpl.
  - rewrite app_nil_r. reflexivity.
  - simpl in Hnd. destruct (d <=? df); simpl.
    + assert (Habs : JsMap.get word vocab = None).
      { apply get_None_keys. intros Hin.
        apply NoDup_remove_2 in Hnd. apply Hnd, in_or_app. auto. }
      rewrite (set_absent _ _ _ Habs), IH.
      * rewrite <- app_assoc. reflexivity.
      * unfold JsMap.keys in *. rewrite map_app, <- app_assoc. exact Hnd.
    + apply IH. apply NoDup_remove_1 in Hnd. exact Hnd.
Qed.

Lemma train_vocabulary_eq (corpus : list Item.t) (m : model) :
  vocabulary (train corpus m)
  = numbered 0 (JsMap.keys (frequentEntries (train corpus m))).
Proof.
  unfold frequentEntries.
  destruct corpus as [|item corpus]; [reflexivity|].
  destruct (train_config (item :: corpus) m) as (_ & -> & _).
  unfold train. set (m0 := resetModel _ m).
  set (m1 := fold_left trainItem (item :: corpus) m0).
  cbn [setIsTrained buildVocabulary vocabulary documentFrequency].
  destruct (trainItems_config (item :: corpus) m0) as (_ & Hd & _ & _ & Hv).
  fold m1 in Hd, Hv. rewrite Hd, Hv. unfold m0 at 1 2.
  cbn [resetModel vocabulary minDf].
  rewrite vocabulary_loop_numbered; [reflexivity|].
  apply (trainItems_wellFormed (item :: corpus) m0 (resetModel_wellFormed _ m)).
Qed.

Lemma numbered_keys (i : Z) (words : list string) :
  JsMap.keys (numbered i words) = words.
Proof.
  revert i. induction words as [|w words IH]; intros i; simpl; [reflexivity|].
  rewrite IH. reflexivity.
Qed.

Lemma numbered_nth (words : list string) (i : Z) (k : nat) (w : string) (v : Z) :
  nth_error (numbered i words) k = Some (w, v) -> v = i + Z.of_nat k.
Proof.
  revert i k. induction words as [|w0 words IH]; intros i k; simpl.
  - destruct k; discriminate.
  - destruct k as [|k]; simpl.
    + intros [= _ <-]. lia.
    + intros H. apply IH in H. lia.
Qed.

(** X4. After [train], the vocabulary holds exactly the words whose
    recorded document frequency reaches the configured minimum, in the
    order in which they entered the document-frequency map; the word at
    position [k] has index [k], so the indices are 0, 1, ..., size - 1, and
    the size is the number of document-frequency entries that reach the
    minimum. *)
Theorem train_vocabulary_indices (corpus : list Item.t) (m : model) :
  let trained := train corpus m in
  JsMap.keys (vocabulary trained) = JsMap.keys (frequentEntries trained)
  /\ JsMap.size (vocabulary trained)
     = Z.of_nat (length (frequentEntries trained))
  /\ (forall k w v, nth_error (vocabulary trained) k = Some (w, v) ->
                    v = Z.of_nat k)
  /\ (forall w, JsMap.has w (vocabulary trained)
                = JsMap.has w (documentFrequency trained)
                  && (minDf trained <=? recordedDf trained w)).
Proof.
  cbv zeta. split; [|split; [|split]].
  - rewrite train_vocabulary_eq at 1. apply numbered_keys.
  - unfold JsMap.size. f_equal.
    rewrite <- (length_map fst (vocabulary _)),
      <- (length_map fst (frequentEntries _)).
    fold (JsMap.keys (vocabulary (train corpus m))).
    rewrite train_vocabulary_eq at 1. rewrite numbered_keys. reflexivity.
  - intros k w v H. rewrite train_vocabulary_eq in H.
    apply numbered_nth in H. lia.
  - intros w. destruct corpus as [|item corpus]; [reflexivity|].
    apply train_vocabulary_has.
Qed.

Example train_vocabulary_example :
  let corpus :=
    [Item.make Spam None (Some "rare prize click");
     Item.make Ham None (Some "click prize")] in
  documentFrequency (train corpus newModel)
  = [("rare"%string, 1); ("prize"%string, 2); ("click"%string, 2)]
  /\ vocabulary (train corpus newModel)
     = [("prize"%string, 0); ("click"%string, 1)].
Proof. split; reflexivity. Qed.

(** ** Term frequencies *)

Lemma get_increments (w : string) (features : list string) (m : JsMap.t Z) :
  JsMap.get w (fold_left increment features m)
  = match occurrences w features with
    | O => JsMap.get w m
    | S _ => Some (getOr0 w m + Z.of_nat (occurrences w features))
    end.
Proof.
  revert m. induction features as [|f features IH]; intros m; [reflexivity|].
  cbn [fold_left]. rewrite IH. unfold occurrences. cbn [filter].
  rewrite (String.eqb_sym w f). unfold getOr0. rewrite get_increment.
  destruct (String.eqb f w); cbn [length].
  - destruct (length (filter (String.eqb w) features)); f_equal;
      unfold getOr0; lia.
  - reflexivity.
Qed.

Lemma get_map_values {A B : Type} (f : A -> B) (w : string) (m : JsMap.t A) :
  JsMap.get w (map (fun entry => (fst entry, f (snd entry))) m)
  = option_map f (JsMap.get w m).
Proof.
  induction m as [|[k v] m IH]; simpl; [reflexivity|].
  destruct (String.eqb w k); [reflexivity | exact IH].
Qed.

Local Open Scope R_scope.

Lemma sumR_scaled (d : Z) (counts : JsMap.t Z) :
  sumR (map (fun entry => (fst entry, IZR (snd entry) / IZR d)) counts)
  = IZR (sumValues counts) / IZR d.
Proof.
  induction counts as [|[k c] counts IH]; simpl.
  - unfold Rdiv. ring.
  - rewrite IH, plus_IZR. unfold Rdiv. ring.
Qed.

(** X5. [termFrequency] gives every word of the list, and no other, the
    number of its occurrences divided by the length of the list; for a
    non-empty list the frequencies add up to 1. *)
Theorem termFrequency_values (words : list string) (w : string) :
  JsMap.get w (termFrequency words)
  = match occurrences w words with
    | O => None
    | S _ => Some (INR (occurrences w words) / INR (length words))
    end
  /\ sumR (termFrequency words)
     = match words with [] => 0 | _ :: _ => 1 end.
Proof.
  unfold termFrequency. split.
  - rewrite (get_map_values (fun c => IZR c / IZR _)), get_increments.
    destruct (occurrences w words) as [|k] eqn:E; [reflexivity|].
    destruct words as [|w0 words]; [discriminate|].
    cbn [option_map getOr0 JsMap.get JsMap.empty].
    rewrite !INR_IZR_INZ. reflexivity.
  - rewrite sumR_scaled, increments_sumValues.
    destruct words as [|w0 words]; cbn [sumValues JsMap.empty fold_right].
    + simpl. unfold Rdiv. ring.
    + rewrite Z.add_0_l. apply Rdiv_diag. apply not_0_IZR.
      simpl. lia.
Qed.

Example termFrequency_example :
  termFrequency ["aa"; "bb"; "aa"]%string
  = [("aa"%string, 2 / 3); ("bb"%string, 1 / 3)].
Proof. reflexivity. Qed.

(** ** Inverse document frequencies *)

(** X6. In a model that [train] produced, a word that no training document
    contains has inverse document frequency 0, and a word that some
    document contains has inverse document frequency at least 1: a word
    seen in training never gets the weight 0. *)
Theorem idf_after_train (corpus : list Item.t) (m0 : model) (w : string) :
  let m := train corpus m0 in
  match documentsContaining w corpus with
  | O => idf m w = 0
  | S _ => 1 <= idf m w
  end.
Proof.
  cbv zeta. unfold idf.
  assert (Hdf : getOr0 w (documentFrequency (train corpus m0))
                = Z.of_nat (documentsContaining w corpus)).
  { unfold getOr0. rewrite train_get_df.
    destruct (documentsContaining w corpus); reflexivity. }
  rewrite Hdf. destruct (train_config corpus m0) as (_ & _ & ->).
  pose proof (documentsContaining_le w corpus) as Hle.
  destruct (documentsContaining w corpus) as [|k] eqn:E; [reflexivity|].
  replace (Z.of_nat (S k) =? 0)%Z with false by (symmetry; apply Z.eqb_neq; lia).
  assert (H1 : 0 < IZR (Z.of_nat (S k)) + 1).
  { pose proof (IZR_le 0 _ (Nat2Z.is_nonneg (S k))) as H. lra. }
  assert (H2 : IZR (Z.of_nat (S k)) <= IZR (Z.of_nat (length corpus)))
    by (apply IZR_le; lia).
  assert (H3 : 1 <= (IZR (Z.of_nat (length corpus)) + 1)
                    / (IZR (Z.of_nat (S k)) + 1)).
  { apply (Rmult_le_reg_r (IZR (Z.of_nat (S k)) + 1)); [exact H1|].
    unfold Rdiv. rewrite Rmult_assoc, Rinv_l by lra. lra. }
  assert (H4 : 0 <= ln ((IZR (Z.of_nat (length corpus)) + 1)
                        / (IZR (Z.of_nat (S k)) + 1))).
  { rewrite <- ln_1. destruct H3 as [Hlt|Heq].
    - left. apply ln_increasing; lra.
    - right. rewrite <- Heq. reflexivity. }
  lra.
Qed.

(** ** The scores of a prediction *)

Lemma predictFeatures_label (m : model) (features : list string) :
  let p := normalize (logProbs m features) in
  (spam p > ham p
   /\ Prediction.label (predictFeatures m features) = "spam"%string
   /\ Prediction.probability (predictFeatures m features) = spam p)
  \/ (spam p <= ham p
      /\ Prediction.label (predictFeatures m features) = "ham"%string
      /\ Prediction.probability (predictFeatures m features) = ham p).
Proof.
  cbv zeta. unfold predictFeatures.
  cbn [Prediction.label Prediction.probability].
  destruct (Rgt_dec _ _) as [Hgt|Hle]; [left | right]; repeat split; auto.
  apply Rnot_gt_le, Hle.
Qed.


(** The normalization keeps the order of the two log-scores. *)
Lemma normalize_order (lp : perClass R) :
  spam (normalize lp) > ham (normalize lp) <-> spam lp > ham lp.
Proof.
  rewrite normalize_softmax. cbn [spam ham].
  pose proof (sumExp_pos (spam lp) (ham lp)) as Hpos.
  set (S := exp (spam lp) + exp (ham lp)) in *.
  split; intros H.
  - destruct (Rle_or_lt (spam lp) (ham lp)) as [Hle|Hlt]; [|exact Hlt].
    exfalso.
    assert (He : exp (spam lp) <= exp (ham lp)).
    { destruct Hle as [Hlt|Heq]; [left; apply exp_increasing, Hlt|].
      rewrite Heq. right. reflexivity. }
    apply (Rmult_le_compat_r (/ S)) in He;
      [|left; apply Rinv_0_lt_compat, Hpos].
    unfold Rdiv in H. lra.
  - apply exp_increasing in H. unfold Rdiv.
    apply Rmult_lt_compat_r; [apply Rinv_0_lt_compat, Hpos | exact H].
Qed.



(** X8. For a trained model the label is "spam" exactly when the spam
    log-score is strictly larger than the ham log-score, and "ham"
    otherwise: subtracting the maximum, exponentiating and dividing by the
    sum never changes which class wins. *)
Theorem predict_label_is_argmax (m : model) (x : input) :
  isTrained m = true ->
  let lp := logProbs m (inputFeatures x) in
  (Prediction.label (predict m x) = "spam"%string <-> spam lp > ham lp)
  /\ (Prediction.label (predict m x) = "ham"%string <-> spam lp <= ham lp).
Proof.
  intros Ht lp. rewrite (predict_trained _ _ Ht).
  pose proof (normalize_order lp) as Hord.
  destruct (predictFeatures_label m (inputFeatures x))
    as [(Hc & -> & _)|(Hc & -> & _)]; fold lp in Hc.
  - split; split; intros H; try discriminate; try reflexivity.
    + apply Hord, Hc.
    + apply Hord in Hc. lra.
  - split; split; intros H; try discriminate; try reflexivity.
    + apply Hord in H. lra.
    + destruct (Rle_or_lt (spam lp) (ham lp)) as [Hle|Hlt]; [exact Hle|].
      apply Hord in Hlt. lra.
Qed.

Lemma predict_label_is_argmax_witness :
  let m := train smallCorpus newModel in
  let x := Text "aa bb" in
  let lp := logProbs m (inputFeatures x) in
  (Prediction.label (predict m x) = "spam"%string <-> spam lp > ham lp)
  /\ (Prediction.label (predict m x) = "ham"%string <-> spam lp <= ham lp).
Proof.
  exact (predict_label_is_argmax (train smallCorpus newModel)
           (Text "aa bb") eq_refl).
Defined.

(** ** The log-score in closed form *)

Lemma weightedSum_set (m : model) (l : label) (counts : JsMap.t Z)
  (k : string) (v : Z) :
  weightedSum m l (JsMap.set k v counts)
  = weightedSum m l counts
    + featureTerm m l k * (IZR v - IZR (getOr0 k counts)).
Proof.
  unfold getOr0, featureTerm.
  induction counts as [|[k' v'] r IH]; simpl.
  - destruct (JsMap.has k (vocabulary m)); ring.
  - destruct (String.eqb_spec k k') as [->|Hne]; simpl.
    + destruct (JsMap.has k' (vocabulary m)); ring.
    + rewrite IH. destruct (JsMap.has k (vocabulary m)),
        (JsMap.has k' (vocabulary m)); ring.
Qed.

Lemma weightedSum_increments (m : model) (l : label)
  (features : list string) (counts : JsMap.t Z) :
  weightedSum m l (fold_left increment features counts)
  = weightedSum m l counts + featureTerms m l features.
Proof.
  revert counts. induction features as [|f features IH]; intros counts.
  - simpl. ring.
  - cbn [fold_left featureTerms fold_right]. rewrite IH. unfold increment.
    rewrite weightedSum_set, plus_IZR. unfold featureTerms. ring.
Qed.

Lemma logProb_closed (m : model) (features : list string) (l : label) :
  logProb m (tfidfFromFeatures m features) l
  = ln (priorProb m l)
    + featureTerms m l features / IZR (docLength features).
Proof.
  unfold logProb. rewrite tfidfFromFeatures_weigh, logProb_weightedSum,
    weightedSum_increments.
  simpl. rewrite Rplus_0_l. reflexivity.
Qed.

(** X9. The log-score that [predict] computes for a class is the logarithm
    of the class prior plus, for every feature instance of the input that
    is in the vocabulary, [idf(word) * ln(wordProb(word))], the sum divided
    by the number of feature instances (1 for an empty input).  A word that
    occurs [k] times counts [k] times. *)
Theorem logProb_closed_form (m : model) (x : input) (l : label) :
  at_label (logProbs m (inputFeatures x)) l
  = ln (priorProb m l)
    + fold_right
        (fun word sum =>
           (if JsMap.has word (vocabulary m)
            then ln (wordProb m l word) * idf m word
            else 0) + sum)
        0 (inputFeatures x)
      / (match inputFeatures x with
         | [] => 1
         | _ :: _ => INR (length (inputFeatures x))
         end).
Proof.
  assert (H : at_label (logProbs m (inputFeatures x)) l
              = logProb m (tfidfFromFeatures m (inputFeatures x)) l)
    by (destruct l; reflexivity).
  rewrite H, logProb_closed.
  unfold featureTerms, featureTerm, docLength.
  destruct (inputFeatures x); [reflexivity|].
  rewrite INR_IZR_INZ. reflexivity.
Qed.

Lemma featureTerms_Permutation (m : model) (l : label)
  (features features' : list string) :
  Permutation features features' ->
  featureTerms m l features = featureTerms m l features'.
Proof.
  unfold featureTerms.
  induction 1 as [| w a b _ IH | a b r | a b c _ IH1 _ IH2]; simpl.
  - reflexivity.
  - rewrite IH. reflexivity.
  - ring.
  - rewrite IH1. exact IH2.
Qed.

Lemma docLength_Permutation (features features' : list string) :
  Permutation features features' ->
  docLength features = docLength features'.
Proof.
  intros H. pose proof (Permutation_length H) as Hlen.
  unfold docLength. destruct features, features'; try discriminate;
    [reflexivity|]. rewrite Hlen. reflexivity.
Qed.

(** X10. The classifier is a bag-of-words model: reordering the features
    of an input changes neither log-score, hence no part of the
    prediction. *)
Theorem predictFeatures_order_irrelevant (m : model)
  (features features' : list string) :
  Permutation features features' ->
  logProbs m features = logProbs m features'
  /\ predictFeatures m features = predictFeatures m features'.
Proof.
  intros Hp.
  assert (H : logProbs m features = logProbs m features').
  { unfold logProbs. rewrite !logProb_closed.
    rewrite !(featureTerms_Permutation m _ _ _ Hp),
      (docLength_Permutation _ _ Hp). reflexivity. }
  split; [exact H|]. unfold predictFeatures. rewrite H. reflexivity.
Qed.

Lemma predictFeatures_order_irrelevant_witness :
  let m := train smallCorpus newModel in
  logProbs m ["aa"; "bb"]%string = logProbs m ["bb"; "aa"]%string
  /\ predictFeatures m ["aa"; "bb"]%string
     = predictFeatures m ["bb"; "aa"]%string.
Proof.
  apply (predictFeatures_order_irrelevant (train smallCorpus newModel)).
  apply perm_swap.
Defined.

(** ** Inputs without a known word *)

Lemma featureTerms_unlisted (m : model) (l : label) (features : list string) :
  Forall (fun word => JsMap.has word (vocabulary m) = false) features ->
  featureTerms m l features = 0.
Proof.
  unfold featureTerms, featureTerm.
  induction 1 as [|w ws Hw _ IH]; simpl; [reflexivity|].
  rewrite Hw, IH. ring.
Qed.

(** X11. When no feature of the input is in the vocabulary (in particular
    for an empty input or an empty vocabulary), a trained model with a
    positive smoothing constant and non-negative counters returns the
    smoothed class proportions: the score of a class is its document count
    plus alpha, over the two document counts plus twice alpha. *)
Theorem predict_without_known_words (m : model) (x : input) :
  isTrained m = true ->
  0 < alpha m ->
  countsNonneg m ->
  Forall (fun word => JsMap.has word (vocabulary m) = false) (inputFeatures x) ->
  let nSpam := IZR (spam (classDocCount m)) in
  let nHam := IZR (ham (classDocCount m)) in
  Prediction.scores (predict m x)
  = [("spam"%string, (nSpam + alpha m) / (nSpam + nHam + 2 * alpha m));
     ("ham"%string, (nHam + alpha m) / (nSpam + nHam + 2 * alpha m))].
Proof.
  intros Ht Ha Hc Hx nSpam nHam. rewrite (predict_trained _ _ Ht).
  unfold predictFeatures. cbn [Prediction.scores scoresObject].
  assert (Hlp : logProbs m (inputFeatures x)
                = PerClass (ln (priorProb m Spam)) (ln (priorProb m Ham))).
  { unfold logProbs. rewrite !logProb_closed, !featureTerms_unlisted by exact Hx.
    unfold Rdiv. rewrite !Rmult_0_l, !Rplus_0_r. reflexivity. }
  rewrite Hlp.
  destruct (scoring_in_domain m Spam ""%string Ha Hc) as (Hps & _).
  destruct (scoring_in_domain m Ham ""%string Ha Hc) as (Hph & _).
  rewrite normalize_of_ln by assumption. cbn [spam ham].
  destruct Hc as (Hn & Hd & _).
  pose proof (IZR_le _ _ Hn) as Hn'.
  pose proof (IZR_le _ _ (Hd Spam)) as Hs'.
  pose proof (IZR_le _ _ (Hd Ham)) as Hh'.
  unfold priorProb. cbn [at_label]. fold nSpam nHam.
  simpl in Hs', Hh'. fold nSpam in Hs'. fold nHam in Hh'.
  set (n := IZR (totalDocuments m)) in *.
  replace ((nSpam + alpha m) / (n + 2 * alpha m)
           / ((nSpam + alpha m) / (n + 2 * alpha m)
              + (nHam + alpha m) / (n + 2 * alpha m)))
    with ((nSpam + alpha m) / (nSpam + nHam + 2 * alpha m)) by (field; lra).
  replace ((nHam + alpha m) / (n + 2 * alpha m)
           / ((nSpam + alpha m) / (n + 2 * alpha m)
              + (nHam + alpha m) / (n + 2 * alpha m)))
    with ((nHam + alpha m) / (nSpam + nHam + 2 * alpha m)) by (field; lra).
  reflexivity.
Qed.

Lemma predict_without_known_words_witness :
  let m := train smallCorpus newModel in
  let nSpam := IZR (spam (classDocCount m)) in
  let nHam := IZR (ham (classDocCount m)) in
  Prediction.scores (predict m (Text "zz yy"))
  = [("spam"%string, (nSpam + alpha m) / (nSpam + nHam + 2 * alpha m));
     ("ham"%string, (nHam + alpha m) / (nSpam + nHam + 2 * alpha m))].
Proof.
  apply (predict_without_known_words (train smallCorpus newModel)
           (Text "zz yy") eq_refl).
  - simpl. lra.
  - apply train_countsNonneg.
  - repeat constructor.
Defined.

(** X12. Training on an empty list empties the accumulators but leaves the
    trained flag alone, so a model that was trained before then answers
    every input with label "ham", probability 1/2 and scores 1/2 and 1/2. *)
Theorem predict_after_empty_retrain (m : model) (x : input) :
  isTrained m = true ->
  predict (train [] m) x
  = {| Prediction.label := "ham";
       Prediction.probability := 1 / 2;
       Prediction.scores := [("spam"%string, 1 / 2); ("ham"%string, 1 / 2)] |}.
Proof.
  intros Ht.
  assert (Ht' : isTrained (train [] m) = true) by exact Ht.
  rewrite (predict_trained _ _ Ht'). unfold predictFeatures.
  set (lp := logProbs (train [] m) (inputFeatures x)).
  assert (Heq : spam lp = ham lp).
  { unfold lp, logProbs. cbn [spam ham]. rewrite !logProb_closed.
    rewrite !featureTerms_unlisted; [reflexivity | |];
      apply Forall_forall; intros; reflexivity. }
  assert (Hn : normalize lp = PerClass (1 / 2) (1 / 2)).
  { rewrite normalize_softmax, Heq.
    pose proof (exp_pos (ham lp)). f_equal; field; lra. }
  rewrite Hn. cbn [spam ham].
  destruct (Rgt_dec (1 / 2) (1 / 2)) as [Hgt|_]; [lra|]. reflexivity.
Qed.

Lemma predict_after_empty_retrain_witness :
  predict (train [] (train smallCorpus newModel)) (Text "aa bb")
  = {| Prediction.label := "ham";
       Prediction.probability := 1 / 2;
       Prediction.scores := [("spam"%string, 1 / 2); ("ham"%string, 1 / 2)] |}.
Proof.
  exact (predict_after_empty_retrain (train smallCorpus newModel)
           (Text "aa bb") eq_refl).
Defined.

(** ** Snapshots with missing fields, and the round trip of the state *)

(** X13. Importing a snapshot whose trained flag is missing or false
    leaves the instance untrained, whatever it held before and whatever
    else the snapshot holds, so [predict] then returns the "unknown"
    sentinel for every input. *)
Theorem deserialize_untrained_snapshot
  (data : Snapshot.t) (m : model) (x : input) :
  Snapshot.isTrained data <> Some true ->
  isTrained (deserialize (Some data) m) = false
  /\ predict (deserialize (Some data) m) x = unknownPrediction.
Proof.
  intros Hflag.
  assert (Ht : isTrained (deserialize (Some data) m) = false).
  { cbn [deserialize isTrained].
    destruct (Snapshot.isTrained data) as [[|]|]; [congruence| |]; reflexivity. }
  split; [exact Ht|]. unfold predict. rewrite Ht. reflexivity.
Qed.

Lemma deserialize_untrained_snapshot_witness :
  let m := train smallCorpus newModel in
  isTrained (deserialize (Some emptySnapshot) m) = false
  /\ predict (deserialize (Some emptySnapshot) m) (Text "aa bb")
     = unknownPrediction.
Proof.
  apply (deserialize_untrained_snapshot emptySnapshot
           (train smallCorpus newModel) (Text "aa bb")).
  simpl. discriminate.
Defined.

(** X14. For a model whose maps have distinct keys, importing the model's
    own snapshot gives the model back, and the snapshot of a model that
    imported a snapshot is that snapshot again, whatever the importing
    instance held. *)
Theorem snapshot_state_roundtrip (m target : model) :
  wellFormed m ->
  deserialize (Some (serialize m)) m = m
  /\ serialize (deserialize (Some (serialize m)) target) = serialize m.
Proof.
  intros Hm. rewrite !(deserialize_serialize _ _ Hm). split.
  - destruct m. reflexivity.
  - reflexivity.
Qed.

Lemma snapshot_state_roundtrip_witness :
  let m := train smallCorpus newModel in
  deserialize (Some (serialize m)) m = m
  /\ serialize (deserialize (Some (serialize m)) alphaTwoModel) = serialize m.
Proof.
  apply (snapshot_state_roundtrip (train smallCorpus newModel) alphaTwoModel).
  unfold wellFormed, distinctKeys. simpl.
  repeat split; repeat constructor; simpl; intuition discriminate.
Defined.

(** ** [getTopFeatures] *)

Lemma insertDescending_Permutation (e : string * R) (l : list (string * R)) :
  Permutation (insertDescending e l) (e :: l).
Proof.
  induction l as [|y l IH]; simpl; [reflexivity|].
  destruct (Rlt_dec (snd e) (snd y)); [|reflexivity].
  rewrite IH. apply perm_swap.
Qed.

Lemma sortDescending_Permutation (l : list (string * R)) :
  Permutation (sortDescending l) l.
Proof.
  induction l as [|e l IH]; simpl; [reflexivity|].
  rewrite insertDescending_Permutation, IH. reflexivity.
Qed.

Lemma insertDescending_sorted (e : string * R) (l : list (string * R)) :
  StronglySorted notBelow l -> StronglySorted notBelow (insertDescending e l).
Proof.
  induction 1 as [|y l Hl IH Hy]; simpl.
  - constructor; constructor.
  - destruct (Rlt_dec (snd e) (snd y)) as [Hlt|Hge].
    + constructor; [exact IH|].
      apply (Permutation_Forall (Permutation_sym
                                   (insertDescending_Permutation e l))).
      constructor; [unfold notBelow; lra | exact Hy].
    + assert (Hey : notBelow e y) by (unfold notBelow; lra).
      constructor; [constructor; assumption|].
      constructor; [exact Hey|].
      eapply Forall_impl; [|exact Hy]. unfold notBelow. intros a Ha. lra.
Qed.

Lemma sortDescending_sorted (l : list (string * R)) :
  StronglySorted notBelow (sortDescending l).
Proof.
  induction l as [|e l IH]; simpl; [constructor|].
  apply insertDescending_sorted, IH.
Qed.

Lemma In_firstn {A : Type} (k : nat) (l : list A) (a : A) :
  In a (firstn k l) -> In a l.
Proof.
  intros H. rewrite <- (firstn_skipn k l). apply in_or_app. left. exact H.
Qed.

Lemma firstn_sorted (k : nat) (l : list (string * R)) :
  StronglySorted notBelow l -> StronglySorted notBelow (firstn k l).
Proof.
  intros Hl. revert k. induction Hl as [|y l Hl IH Hy]; intros k.
  - rewrite firstn_nil. constructor.
  - destruct k as [|k]; simpl; [constructor|].
    constructor; [apply IH|].
    apply Forall_forall. intros a Ha. rewrite Forall_forall in Hy.
    apply Hy. exact (In_firstn k l a Ha).
Qed.

Lemma slice0_firstn {A : Type} (n : Z) (l : list A) :
  (0 <= n)%Z -> slice0 n l = firstn (Z.to_nat n) l.
Proof.
  intros Hn. unfold slice0.
  destruct (Z.ltb_spec n 0); [lia | reflexivity].
Qed.

Lemma sorted_app_order (a b : list (string * R)) :
  StronglySorted notBelow (a ++ b) ->
  forall x y, In x a -> In y b -> notBelow x y.
Proof.
  induction a as [|x0 a IH]; simpl; intros Hs x y Hx Hy; [contradiction|].
  inversion Hs as [|? ? Hs' Hall]; subst.
  destruct Hx as [<-|Hx]; [|exact (IH Hs' x y Hx Hy)].
  rewrite Forall_forall in Hall. apply Hall, in_or_app. right. exact Hy.
Qed.

Lemma keys_filter_NoDup {V : Type} (p : string * V -> bool) (m : JsMap.t V) :
  NoDup (JsMap.keys m) -> NoDup (JsMap.keys (filter p m)).
Proof.
  unfold JsMap.keys. induction m as [|e m IH]; simpl; intros Hnd; [constructor|].
  inversion Hnd as [|? ? Hnotin Hm]; subst.
  destruct (p e); simpl; [|exact (IH Hm)].
  constructor; [|exact (IH Hm)].
  intros Hin. apply Hnotin. apply in_map_iff in Hin.
  destruct Hin as (e' & He' & Hin). apply filter_In in Hin.
  apply in_map_iff. exists e'. tauto.
Qed.

Lemma tfidfFromFeatures_keys (m : model) (features : list string) :
  distinctKeys (tfidfFromFeatures m features)
  /\ forall w, In w (JsMap.keys (tfidfFromFeatures m features)) ->
               In w features.
Proof.
  rewrite tfidfFromFeatures_weigh.
  assert (Hk : JsMap.keys (map (weigh m (docLength features))
                               (fold_left increment features JsMap.empty))
               = JsMap.keys (fold_left increment features JsMap.empty)).
  { unfold JsMap.keys. rewrite map_map. apply map_ext. intros []. reflexivity. }
  unfold distinctKeys. rewrite Hk. split.
  - apply (distinctKeys_increments features JsMap.empty), distinctKeys_empty.
  - intros w Hin.
    destruct (JsMap.get w (fold_left increment features JsMap.empty)) eqn:E.
    + rewrite get_increments in E. unfold occurrences in E.
      destruct (filter (String.eqb w) features) as [|f fs] eqn:Ef;
        [discriminate|].
      assert (Hf : In f (filter (String.eqb w) features))
        by (rewrite Ef; left; reflexivity).
      apply filter_In in Hf. destruct Hf as [Hf Heq].
      apply String.eqb_eq in Heq. subst. exact Hf.
    + apply get_None_keys in E. contradiction.
Qed.

(** X15. For a non-negative [n] (10 when it is left out), [getTopFeatures]
    returns at most [n] entries, no word twice; every word returned is in
    the vocabulary and among the features of the input, and its score is
    the rendering of its TF-IDF weight; the entries are in descending order
    of weight, and no vocabulary entry that was left out has a larger
    weight than one that was kept. *)
Theorem getTopFeatures_properties
  (toFixed4 : R -> string) (m : model) (x : input) (n : option Z) :
  (0 <= orElse n 10%Z)%Z ->
  let top := getTopFeatures toFixed4 m x n in
  let kept := topEntries m x n in
  let weights := tfidfFromFeatures m (inputFeatures x) in
  (Z.of_nat (length top) <= orElse n 10%Z)%Z
  /\ NoDup (map TopFeature.word top)
  /\ (forall t, In t top ->
        JsMap.has (TopFeature.word t) (vocabulary m) = true
        /\ In (TopFeature.word t) (inputFeatures x)
        /\ exists v, JsMap.get (TopFeature.word t) weights = Some v
                     /\ TopFeature.score t = toFixed4 v)
  /\ StronglySorted notBelow kept
  /\ (forall e e', In e weights ->
        JsMap.has (fst e) (vocabulary m) = true ->
        ~ In e kept -> In e' kept -> notBelow e' e).
Proof.
  intros Hn top kept weights.
  set (candidates :=
         filter (fun entry => JsMap.has (fst entry) (vocabulary m)) weights).
  set (sorted := sortDescending candidates).
  assert (Hkept : kept = firstn (Z.to_nat (orElse n 10%Z)) sorted).
  { unfold kept, topEntries. apply slice0_firstn, Hn. }
  destruct (tfidfFromFeatures_keys m (inputFeatures x)) as [Hdist Hfeat].
  fold weights in Hdist, Hfeat.
  assert (Hperm : Permutation sorted candidates)
    by apply sortDescending_Permutation.
  assert (Hsorted : StronglySorted notBelow sorted)
    by apply sortDescending_sorted.
  assert (Hin : forall e, In e kept ->
                          In e weights
                          /\ JsMap.has (fst e) (vocabulary m) = true).
  { intros e He. rewrite Hkept in He. apply In_firstn in He.
    apply (Permutation_in _ Hperm) in He. apply filter_In in He. exact He. }
  assert (Htop : map TopFeature.word top = JsMap.keys kept).
  { unfold top, getTopFeatures. fold kept. unfold JsMap.keys.
    rewrite map_map. reflexivity. }
  split; [|split; [|split; [|split]]].
  - unfold top, getTopFeatures. fold kept.
    rewrite length_map, Hkept. pose proof (firstn_le_length
      (Z.to_nat (orElse n 10%Z)) sorted). lia.
  - rewrite Htop, Hkept.
    assert (Hnd : NoDup (JsMap.keys sorted)).
    { unfold JsMap.keys.
      apply (Permutation_NoDup
               (Permutation_sym (Permutation_map fst Hperm))).
      apply keys_filter_NoDup, Hdist. }
    unfold JsMap.keys in *. rewrite <- firstn_map.
    rewrite <- (firstn_skipn (Z.to_nat (orElse n 10%Z)) (map fst sorted)) in Hnd.
    apply NoDup_app_remove_r in Hnd. exact Hnd.
  - intros t Ht. unfold top, getTopFeatures in Ht. fold kept in Ht.
    apply in_map_iff in Ht. destruct Ht as (e & <- & He).
    destruct (Hin e He) as [Hw Hv]. cbn [topFeature TopFeature.word
                                         TopFeature.score].
    split; [exact Hv|]. split.
    + apply Hfeat. unfold JsMap.keys. apply in_map, Hw.
    + exists (snd e). split; [|reflexivity].
      apply (In_get _ _ _ Hdist). destruct e. exact Hw.
  - rewrite Hkept. apply firstn_sorted, Hsorted.
  - intros e e' He Hv Hnot He'.
    assert (Hes : In e sorted).
    { apply (Permutation_in _ (Permutation_sym Hperm)).
      apply filter_In. split; assumption. }
    rewrite <- (firstn_skipn (Z.to_nat (orElse n 10%Z)) sorted) in Hes, Hsorted.
    rewrite <- Hkept in Hes, Hsorted.
    apply in_app_or in Hes. destruct Hes as [Hes|Hes]; [contradiction|].
    exact (sorted_app_order _ _ Hsorted e' e He' Hes).
Qed.

Lemma getTopFeatures_properties_witness :
  let toFixed4 := fun _ : R => "0.0000"%string in
  let m := train tieCorpus newModel in
  let x := Text "aa bb aa" in
  let top := getTopFeatures toFixed4 m x (Some 1%Z) in
  let kept := topEntries m x (Some 1%Z) in
  let weights := tfidfFromFeatures m (inputFeatures x) in
  (Z.of_nat (length top) <= 1)%Z
  /\ NoDup (map TopFeature.word top)
  /\ (forall t, In t top ->
        JsMap.has (TopFeature.word t) (vocabulary m) = true
        /\ In (TopFeature.word t) (inputFeatures x)
        /\ exists v, JsMap.get (TopFeature.word t) weights = Some v
                     /\ TopFeature.score t = toFixed4 v)
  /\ StronglySorted notBelow kept
  /\ (forall e e', In e weights ->
        JsMap.has (fst e) (vocabulary m) = true ->
        ~ In e kept -> In e' kept -> notBelow e' e).
Proof.
  apply (getTopFeatures_properties (fun _ : R => "0.0000"%string)
           (train tieCorpus newModel) (Text "aa bb aa") (Some 1%Z)).
  simpl. lia.
Defined.

(** * Properties of the mailbox helpers *)

Local Close Scope R_scope.
Local Close Scope Z_scope.

(** ** [parseSender] *)

Example parseSender_examples :
  parseSender (Some "Big Bob  <bob@corp.org>") = Sender.make "Big Bob" "bob@corp.org"
  /\ parseSender (Some " bob@corp.org ") = Sender.make "" "bob@corp.org"
  /\ parseSender (Some "Big Bob") = Sender.make "Big Bob" ""
  /\ parseSender (Some "a<b <c@d>") = Sender.make "a" "b <c@d"
  /\ parseSender (Some "<bob@corp.org>") = Sender.make "" "<bob@corp.org>"
  /\ parseSender None = Sender.make "" "".
Proof. repeat split. Qed.

Lemma dropWhile_suffix (p : ascii -> bool) (l : list ascii) :
  exists pre, l = pre ++ dropWhile p l /\ forallb p pre = true.
Proof.
  induction l as [|c l (pre & IH & Hp)]; simpl.
  - exists []. split; reflexivity.
  - destruct (p c) eqn:E.
    + exists (c :: pre). simpl. rewrite E, <- IH. split; [reflexivity | exact Hp].
    + exists []. split; reflexivity.
Qed.

Lemma dropWhile_head (p : ascii -> bool) (l : list ascii) (c : ascii)
  (r : list ascii) :
  dropWhile p l = c :: r -> p c = false.
Proof.
  induction l as [|a l IH]; simpl; [discriminate|].
  destruct (p a) eqn:E; [exact IH|]. intros [= -> _]. exact E.
Qed.

Lemma dropWhile_id (p : ascii -> bool) (l : list ascii) :
  match l with [] => True | c :: _ => p c = false end -> dropWhile p l = l.
Proof. destruct l as [|c l]; simpl; [reflexivity|]. intros ->. reflexivity. Qed.

Lemma last_suffix (pre : list ascii) (x : ascii) (t : list ascii) (d : ascii) :
  last (pre ++ x :: t) d = last (x :: t) d.
Proof.
  induction pre as [|a pre IH]; [reflexivity|].
  change ((a :: pre) ++ x :: t) with (a :: (pre ++ x :: t)).
  cbn [last]. destruct (pre ++ x :: t) eqn:E; [|exact IH].
  destruct pre; discriminate.
Qed.

Lemma last_snoc (l : list ascii) (z d : ascii) : last (l ++ [z]) d = z.
Proof. rewrite last_suffix. reflexivity. Qed.

Lemma rev_head_last (l : list ascii) (c : ascii) (r : list ascii) (d : ascii) :
  rev l = c :: r -> last l d = c.
Proof.
  intros H. apply (f_equal (@rev ascii)) in H. rewrite rev_involutive in H.
  subst l. simpl. apply last_snoc.
Qed.

(** [trim] leaves no white space at either end. *)
Lemma trim_edgeSpace (l : list ascii) : edgeSpace (trim l) = false.
Proof.
  unfold trim. set (a := dropWhile isSpace l).
  destruct (dropWhile isSpace (rev a)) as [|z b] eqn:Eb; [reflexivity|].
  pose proof (dropWhile_head _ _ _ _ Eb) as Hz.
  destruct (dropWhile_suffix isSpace (rev a)) as (pre & Hpre & _).
  rewrite Eb in Hpre.
  assert (Ha : a = rev b ++ z :: rev pre).
  { rewrite <- (rev_involutive a), Hpre, rev_app_distr. simpl.
    rewrite <- app_assoc. reflexivity. }
  simpl. destruct (rev b ++ [z]) as [|c t] eqn:Et; [destruct (rev b); discriminate|].
  unfold edgeSpace. rewrite <- Et at 1. rewrite last_snoc, Hz, orb_false_r.
  (* the first character is the first character of [a] *)
  destruct a as [|a0 a'] eqn:Ea0.
  - destruct (rev b); discriminate.
  - pose proof (dropWhile_head isSpace l a0 a' Ea0) as H0.
    destruct (rev b) as [|b0 rb]; simpl in Et, Ha.
    + injection Et as <- _. exact Hz.
    + injection Et as <- _. injection Ha as <- _. exact H0.
Qed.

Lemma trim_id (l : list ascii) : edgeSpace l = false -> trim l = l.
Proof.
  unfold trim, edgeSpace. destruct l as [|c l]; [reflexivity|].
  intros H. apply orb_false_iff in H. destruct H as [Hc Hlast].
  rewrite (dropWhile_id isSpace (c :: l)) by exact Hc.
  rewrite dropWhile_id; [apply rev_involutive|].
  destruct (rev (c :: l)) as [|z r] eqn:E; [exact I|].
  rewrite <- (rev_head_last _ _ _ c E). exact Hlast.
Qed.

Lemma edgeSpace_last (pre : list ascii) (z : ascii) :
  edgeSpace (pre ++ [z]) = false -> isSpace z = false.
Proof.
  unfold edgeSpace. destruct (pre ++ [z]) as [|c t] eqn:E;
    [destruct pre; discriminate|].
  rewrite <- E, last_snoc. intros H. apply orb_false_iff in H. tauto.
Qed.

Lemma takeWhile_all (p : ascii -> bool) (l t : list ascii) (c : ascii) :
  forallb p l = true -> p c = false ->
  takeWhile p (l ++ c :: t) = l.
Proof.
  intros Hl Hc. induction l as [|a l IH]; simpl.
  - rewrite Hc. reflexivity.
  - simpl in Hl. apply andb_prop in Hl. destruct Hl as [-> Hl].
    rewrite (IH Hl). reflexivity.
Qed.

Lemma skipn_exact (l t : list ascii) : skipn (length l) (l ++ t) = t.
Proof. induction l; simpl; auto. Qed.

(** After a complete address the rest of the expression matches. *)
Lemma matchAddress_address (address : list ascii) :
  address <> [] ->
  forallb (fun c => negb (isChar 62 c)) address = true ->
  matchAddress (chars " <" ++ address ++ chars ">") = Some address.
Proof.
  intros Hne Hno. unfold matchAddress.
  change (dropWhile isSpace (chars " <" ++ address ++ chars ">"))
    with ("<"%char :: (address ++ [">"%char])).
  change (isChar 60 "<"%char) with true. cbv iota zeta.
  rewrite (takeWhile_all _ address [] ">"%char Hno eq_refl).
  destruct address as [|a l]; [congruence|].
  rewrite skipn_exact. reflexivity.
Qed.

(** Inside the display name it does not. *)
Lemma matchAddress_inside (pre : list ascii) (z : ascii) (t : list ascii) :
  forallb (fun c => negb (isChar 60 c)) (pre ++ [z]) = true ->
  isSpace z = false ->
  matchAddress ((pre ++ [z]) ++ t) = None.
Proof.
  intros Hno Hz. unfold matchAddress.
  assert (H : exists x r, dropWhile isSpace ((pre ++ [z]) ++ t) = x :: r
                          /\ isChar 60 x = false).
  { induction pre as [|a pre IH]; simpl in *.
    - rewrite Hz. exists z, t. split; [reflexivity|].
      apply andb_prop in Hno. destruct Hno as [Hno _].
      apply negb_true_iff in Hno. exact Hno.
    - apply andb_prop in Hno. destruct Hno as [Ha Hno].
      destruct (isSpace a); [exact (IH Hno)|].
      eexists _, _. split; [reflexivity|]. apply negb_true_iff in Ha. exact Ha. }
  destruct H as (x & r & -> & ->). reflexivity.
Qed.

Lemma matchSender_name (pre : list ascii) (z : ascii)
  (address nameRev : list ascii) :
  forallb (fun c => negb (isChar 60 c)) (pre ++ [z]) = true ->
  forallb (fun c => negb (isLineTerminator c)) (pre ++ [z]) = true ->
  isSpace z = false ->
  address <> [] ->
  forallb (fun c => negb (isChar 62 c)) address = true ->
  matchSender nameRev ((pre ++ [z]) ++ chars " <" ++ address ++ chars ">")
  = Some (rev nameRev ++ pre ++ [z], address).
Proof.
  intros Hlt Hnl Hz Hne Hgt. revert nameRev.
  induction pre as [|a pre IH]; intros nameRev.
  - cbn [app matchSender]. simpl in Hnl.
    apply andb_prop in Hnl. destruct Hnl as [Hnl _].
    apply negb_true_iff in Hnl. rewrite Hnl.
    rewrite (matchAddress_address _ Hne Hgt). reflexivity.
  - change (((a :: pre) ++ [z]) ++ chars " <" ++ address ++ chars ">")
      with (a :: ((pre ++ [z]) ++ chars " <" ++ address ++ chars ">")).
    cbn [matchSender].
    simpl in Hlt, Hnl.
    apply andb_prop in Hlt. destruct Hlt as [_ Hlt].
    apply andb_prop in Hnl. destruct Hnl as [Ha Hnl].
    apply negb_true_iff in Ha. rewrite Ha.
    rewrite (matchAddress_inside _ _ _ Hlt Hz).
    rewrite (IH Hlt Hnl). simpl. rewrite <- app_assoc. reflexivity.
Qed.

Lemma chars_append (a b : string) : chars (String.append a b) = chars a ++ chars b.
Proof.
  unfold chars. induction a as [|c a IH]; simpl; [reflexivity|].
  rewrite IH. reflexivity.
Qed.

Lemma str_chars (s : string) : str (chars s) = s.
Proof. apply string_of_list_ascii_of_string. Qed.

Lemma snoc_cases (l : list ascii) :
  l <> [] -> exists pre z, l = pre ++ [z].
Proof.
  intros Hne. destruct (exists_last Hne) as (pre & z & ->). eauto.
Qed.

(** X16. An author string made of a display name, a space and the address
    in angle brackets is taken apart again: when the name is not empty,
    holds no [<] and no line break and has no white space at its ends, and
    the address is not empty, holds no [>] and has no white space at its
    ends, [parseSender] returns exactly that name and that address. *)
Theorem parseSender_formatSender (name address : string) :
  name <> ""%string ->
  address <> ""%string ->
  forallb (fun c => negb (isChar 60 c)) (chars name) = true ->
  forallb (fun c => negb (isLineTerminator c)) (chars name) = true ->
  edgeSpace (chars name) = false ->
  forallb (fun c => negb (isChar 62 c)) (chars address) = true ->
  edgeSpace (chars address) = false ->
  parseSender (Some (formatSender name address)) = Sender.make name address.
Proof.
  intros Hn Ha Hlt Hnl Hne Hgt Hae.
  assert (Hn' : chars name <> []).
  { intros E. apply Hn. rewrite <- (str_chars name), E. reflexivity. }
  assert (Ha' : chars address <> []).
  { intros E. apply Ha. rewrite <- (str_chars address), E. reflexivity. }
  destruct (snoc_cases _ Hn') as (pre & z & Epre).
  unfold parseSender.
  assert (Ht : truthy (Some (formatSender name address)) = true).
  { unfold truthy, formatSender. destruct name; [congruence | reflexivity]. }
  rewrite Ht. cbn [negb].
  unfold formatSender. rewrite !chars_append, Epre.
  rewrite Epre in Hlt, Hnl, Hne.
  rewrite (matchSender_name pre z (chars address) []
             Hlt Hnl (edgeSpace_last _ _ Hne) Ha' Hgt).
  cbn [rev app]. rewrite (trim_id _ Hne), (trim_id _ Hae), <- Epre, !str_chars.
  reflexivity.
Qed.

Lemma parseSender_formatSender_witness :
  parseSender (Some (formatSender "Big Bob" "bob@corp.org"))
  = Sender.make "Big Bob" "bob@corp.org".
Proof.
  apply parseSender_formatSender; solve [discriminate | reflexivity].
Defined.

Lemma matchAddress_last (rest address : list ascii) (d : ascii) :
  matchAddress rest = Some address -> isChar 62 (last rest d) = true.
Proof.
  unfold matchAddress.
  destruct (dropWhile_suffix isSpace rest) as (pre & Hpre & _).
  destruct (dropWhile isSpace rest) as [|c after]; [discriminate|].
  destruct (isChar 60 c); [|discriminate].
  set (a := takeWhile _ after).
  pose proof (firstn_skipn (length a) after) as Hsplit.
  destruct a as [|a0 a']; [discriminate|].
  destruct (skipn (length (a0 :: a')) after) as [|close [|]] eqn:Es;
    try discriminate.
  destruct (isChar 62 close) eqn:Ec; [|discriminate]. intros _.
  rewrite Hpre, last_suffix, <- Hsplit.
  change (c :: firstn (length (a0 :: a')) after ++ [close])
    with ((c :: firstn (length (a0 :: a')) after) ++ [close]).
  rewrite last_snoc. exact Ec.
Qed.

Lemma matchSender_last (rest nameRev : list ascii) (d : ascii)
  (found : list ascii * list ascii) :
  matchSender nameRev rest = Some found -> isChar 62 (last rest d) = true.
Proof.
  revert nameRev. induction rest as [|c r IH]; intros nameRev; simpl;
    [discriminate|].
  destruct (isLineTerminator c); [discriminate|].
  destruct (matchAddress r) as [address|] eqn:E.
  - intros _. destruct r as [|r0 r']; [discriminate E|].
    exact (matchAddress_last _ _ d E).
  - intros H. destruct r as [|r0 r']; [discriminate H|].
    exact (IH _ H).
Qed.

(** X17. An author string that does not end with [>] is never split: when
    it holds an [@] the whole trimmed string is the address and the name is
    empty, otherwise the whole trimmed string is the name and the address
    is empty. *)
Theorem parseSender_unsplit (author : string) :
  isChar 62 (last (chars author) " "%char) = false ->
  parseSender (Some author)
  = if existsb (isChar 64) (chars author)
    then Sender.make "" (str (trim (chars author)))
    else Sender.make (str (trim (chars author))) "".
Proof.
  intros Hlast. unfold parseSender.
  destruct (truthy (Some author)) eqn:Et; cbn [negb].
  - destruct (matchSender [] (chars author)) as [found|] eqn:E; [|reflexivity].
    apply (matchSender_last _ _ " "%char) in E. congruence.
  - unfold truthy in Et. apply negb_false_iff, String.eqb_eq in Et.
    subst. reflexivity.
Qed.

Lemma parseSender_unsplit_witness :
  parseSender (Some "  bob@corp.org ")
  = if existsb (isChar 64) (chars "  bob@corp.org ")
    then Sender.make "" (str (trim (chars "  bob@corp.org ")))
    else Sender.make (str (trim (chars "  bob@corp.org "))) "".
Proof. apply parseSender_unsplit. reflexivity. Defined.

(** X18. Whatever the author string, neither the name nor the address
    that [parseSender] returns begins or ends with white space; a missing
    or empty author gives an empty name and an empty address. *)
Theorem parseSender_trimmed (author : option string) :
  edgeSpace (chars (Sender.name (parseSender author))) = false
  /\ edgeSpace (chars (Sender.email (parseSender author))) = false
  /\ (if truthy author then True
      else parseSender author = Sender.make "" "").
Proof.
  unfold parseSender. destruct author as [s|]; [|repeat split].
  destruct (truthy (Some s)); cbn [negb]; [|repeat split].
  destruct (matchSender [] (chars s)) as [[name address]|];
    [|destruct (existsb (isChar 64) (chars s))];
    cbn [Sender.name Sender.email]; rewrite ?chars_str;
    repeat split; solve [apply trim_edgeSpace | reflexivity].
Qed.

(** ** Markup stripping and [getMessageBodyText] *)

Lemma indexOf_existsb (p : ascii -> bool) (l : list ascii) :
  indexOf p l = None <-> existsb p l = false.
Proof.
  induction l as [|c l IH]; simpl; [tauto|].
  destruct (p c); simpl; [split; discriminate|].
  rewrite <- IH. destruct (indexOf p l); simpl; split; congruence.
Qed.

Lemma matchTag_None (c : ascii) (r : list ascii) :
  matchTag (c :: r) = None <-> isChar 60 c && existsb (isChar 62) r = false.
Proof.
  unfold matchTag. destruct (isChar 60 c); simpl; [|tauto].
  rewrite <- indexOf_existsb. destruct (indexOf (isChar 62) r);
    split; congruence.
Qed.

Lemma matchTag_Some (l : list ascii) (n : nat) (repl : list ascii) :
  matchTag l = Some (n, repl) -> repl = space.
Proof.
  unfold matchTag. destruct l as [|c r]; [discriminate|].
  destruct (isChar 60 c); [|discriminate].
  destruct (indexOf (isChar 62) r); [|discriminate].
  intros [= _ <-]. reflexivity.
Qed.

(** Every [>] of the stripped text was in the text. *)
Lemma stripped_gt (l : list ascii) (skip : nat) :
  existsb (isChar 62) l = false ->
  existsb (isChar 62) (replaceAll matchTag skip l) = false.
Proof.
  revert skip. induction l as [|c r IH]; intros skip; [reflexivity|].
  cbn [replaceAll existsb].
  intros H. apply orb_false_iff in H. destruct H as [Hc Hr].
  destruct skip as [|k]; [|apply IH, Hr].
  destruct (matchTag (c :: r)) as [[n repl]|] eqn:E.
  - rewrite (matchTag_Some _ _ _ E). simpl. apply IH, Hr.
  - cbn [existsb]. rewrite Hc. apply IH, Hr.
Qed.

Lemma replaceAll_tagFree (l : list ascii) (skip : nat) :
  tagFree (replaceAll matchTag skip l) = true.
Proof.
  revert skip. induction l as [|c r IH]; intros skip; [reflexivity|].
  cbn [replaceAll].
  destruct skip as [|k]; [|apply IH].
  destruct (matchTag (c :: r)) as [[n repl]|] eqn:E.
  - rewrite (matchTag_Some _ _ _ E). simpl. apply IH.
  - apply matchTag_None in E. cbn [tagFree]. rewrite IH, andb_true_r.
    apply negb_true_iff. apply andb_false_iff in E.
    destruct E as [E|E]; [rewrite E; reflexivity|].
    rewrite (stripped_gt _ _ E). apply andb_false_r.
Qed.

Lemma tagFree_replaceAll (l : list ascii) :
  tagFree l = true -> replaceAll matchTag O l = l.
Proof.
  induction l as [|c r IH]; [reflexivity|].
  cbn [replaceAll tagFree].
  intros H. apply andb_prop in H. destruct H as [Hc Hr].
  apply negb_true_iff, matchTag_None in Hc. rewrite Hc, (IH Hr). reflexivity.
Qed.

Lemma lowerChar_angle (c : ascii) :
  isChar 60 (lowerChar c) = isChar 60 c
  /\ isChar 62 (lowerChar c) = isChar 62 c.
Proof. destruct c as [[] [] [] [] [] [] [] []]; split; reflexivity. Qed.

Lemma matchTag_toLowerCase (l : list ascii) :
  matchTag (toLowerCase l) = matchTag l.
Proof.
  unfold matchTag, toLowerCase. destruct l as [|c r]; [reflexivity|].
  cbn [map]. rewrite (proj1 (lowerChar_angle c)).
  destruct (isChar 60 c); [|reflexivity].
  assert (H : indexOf (isChar 62) (map lowerChar r) = indexOf (isChar 62) r).
  { induction r as [|a r IH]; simpl; [reflexivity|].
    rewrite (proj2 (lowerChar_angle a)), IH. reflexivity. }
  rewrite H. reflexivity.
Qed.

Lemma replaceAll_matchTag_toLowerCase (l : list ascii) (skip : nat) :
  toLowerCase (replaceAll matchTag skip l)
  = replaceAll matchTag skip (toLowerCase l).
Proof.
  revert skip. induction l as [|c r IH]; intros skip; [reflexivity|].
  change (toLowerCase (c :: r)) with (lowerChar c :: toLowerCase r).
  cbn [replaceAll]. destruct skip as [|k]; [|apply IH].
  change (lowerChar c :: toLowerCase r) with (toLowerCase (c :: r)).
  rewrite matchTag_toLowerCase.
  destruct (matchTag (c :: r)) as [[n repl]|] eqn:E.
  - rewrite (matchTag_Some _ _ _ E). unfold toLowerCase at 1.
    rewrite map_app. fold (toLowerCase (replaceAll matchTag (pred n) r)).
    rewrite IH. reflexivity.
  - unfold toLowerCase at 1. cbn [map].
    fold (toLowerCase (replaceAll matchTag 0 r)). rewrite IH. reflexivity.
Qed.

Lemma replaceAll_nonempty (m : matcher) (l : list ascii) :
  (forall l' n repl, m l' = Some (n, repl) -> repl <> []) ->
  l <> [] -> replaceAll m O l <> [].
Proof.
  intros Hm Hl. destruct l as [|c r]; [congruence|]. cbn [replaceAll].
  destruct (m (c :: r)) as [[n repl]|] eqn:E; [|discriminate].
  specialize (Hm _ _ _ E). destruct repl; [congruence | discriminate].
Qed.

Lemma stripTags_truthy (body : string) :
  truthy (Some (stripTags body)) = truthy (Some body).
Proof.
  unfold truthy, stripTags. destruct body as [|c s]; [reflexivity|].
  cbn [String.eqb negb].
  assert (H : replaceAll matchTag 0 (chars (String c s)) <> []).
  { apply replaceAll_nonempty; [|discriminate].
    intros l' n repl E. rewrite (matchTag_Some _ _ _ E). discriminate. }
  destruct (replaceAll matchTag 0 (chars (String c s))); [congruence|].
  reflexivity.
Qed.

(** X19. Replacing the tags of a text by spaces leaves no [<] that is
    followed by a [>], so doing it twice is the same as doing it once. *)
Theorem stripTags_no_tag_left (body : string) :
  tagFree (chars (stripTags body)) = true
  /\ stripTags (stripTags body) = stripTags body.
Proof.
  unfold stripTags. rewrite chars_str. split.
  - apply replaceAll_tagFree.
  - rewrite tagFree_replaceAll; [reflexivity | apply replaceAll_tagFree].
Qed.

(** X20. The markup of an HTML part is stripped before the text reaches the
    classifier, and [tokenize] strips markup again after lower-casing: the
    tokens of the stripped text are the tokens of the text itself. *)
Theorem tokenize_stripTags (body : string) :
  tokenize (Some (stripTags body)) = tokenize (Some body).
Proof.
  unfold tokenize. rewrite stripTags_truthy.
  destruct (truthy (Some body)); cbn [negb]; [|reflexivity].
  unfold stripTags. rewrite chars_str, replaceAll_matchTag_toLowerCase.
  rewrite (tagFree_replaceAll (replaceAll matchTag 0 _))
    by apply replaceAll_tagFree.
  reflexivity.
Qed.

Example getMessageBodyText_example :
  getMessageBodyText
    (Some (Part (Some "multipart/alternative") None
             (Some [Part (Some "text/plain; charset=utf-8") (Some "Hi Bob") None;
                    Part (Some "text/html") (Some "<p>Hi <b>Bob</b></p>") None;
                    Part (Some "image/png") (Some "....") None])))
  = "Hi Bob  Hi  Bob   "
  /\ getMessageBodyText None = "".
Proof. split; reflexivity. Qed.

Lemma extractText_parts_acc (subparts : list part) :
  Forall (fun p => forall acc, extractText p acc = acc ++ extractText p [])
         subparts ->
  forall acc,
    fold_left (fun text subpart => extractText subpart text) subparts acc
    = acc ++ concat (map (fun p => extractText p []) subparts).
Proof.
  induction 1 as [|p ps Hp _ IH]; intros acc; simpl.
  - rewrite app_nil_r. reflexivity.
  - rewrite IH, Hp, app_assoc. reflexivity.
Qed.

Lemma extractText_acc (p : part) :
  forall acc, extractText p acc = acc ++ extractText p [].
Proof.
  revert p. fix extractText_acc 1. intros p.
  destruct p as [contentType body parts]. intros acc. cbn [extractText].
  destruct parts as [subparts|]; [|rewrite app_nil_l; reflexivity].
  assert (Hsub : Forall (fun p => forall acc,
                           extractText p acc = acc ++ extractText p [])
                        subparts).
  { induction subparts as [|sp subparts IH]; constructor;
      [apply extractText_acc | exact IH]. }
  rewrite !(extractText_parts_acc _ Hsub), app_nil_l, app_assoc. reflexivity.
Qed.

(** X21. The text of a message is, in this order, what the part itself
    contributes (its body and a space when it is plain text, its body with
    the tags replaced and a space when it is HTML, nothing otherwise) and
    then the texts of its sub-parts, first to last; [getMessageBodyText]
    returns the first 5000 characters of it, and the empty string when the
    message cannot be fetched. *)
Theorem getMessageBodyText_document_order
  (contentType body : option string) (parts : option (list part)) :
  extractText (Part contentType body parts) []
  = partText contentType body
    ++ concat (map (fun p => extractText p []) (orElse parts []))
  /\ getMessageBodyText (Some (Part contentType body parts))
     = str (firstn 5000
              (partText contentType body
               ++ concat (map (fun p => extractText p []) (orElse parts []))))
  /\ (String.length (getMessageBodyText (Some (Part contentType body parts)))
      <= 5000)%nat
  /\ getMessageBodyText None = ""%string.
Proof.
  assert (H : extractText (Part contentType body parts) []
              = partText contentType body
                ++ concat (map (fun p => extractText p []) (orElse parts []))).
  { cbn [extractText]. rewrite app_nil_l.
    destruct parts as [subparts|]; cbn [orElse].
    - apply extractText_parts_acc. apply Forall_forall. intros p _.
      apply extractText_acc.
    - simpl. rewrite app_nil_r. reflexivity. }
  split; [exact H|]. split; [|split].
  - unfold getMessageBodyText. rewrite H. reflexivity.
  - unfold getMessageBodyText. rewrite length_str. apply firstn_le_length.
  - reflexivity.
Qed.

(** ** [hasSpamHeader] *)

Example hasSpamHeader_examples :
  hasSpamHeader [("x-spam-flag"%string, ["yes"%string])] = true
  /\ hasSpamHeader [("x-spam-status"%string,
                     ["No, score=-1.0"%string; "Yes, score=9.1"%string])] = true
  /\ hasSpamHeader [("x-spam-status"%string, ["No, score=0.3"%string])] = false
  /\ hasSpamHeader [("X-Spam-Flag"%string, ["YES"%string])] = false
  /\ hasSpamHeader [] = false.
Proof. repeat split. Qed.






(** ** Folder trees *)

Local Open Scope Z_scope.


Lemma fold_sum {A : Type} (h : A -> Z) (l : list A) (a : Z) :
  fold_left (fun count x => count + h x) l a
  = a + fold_left (fun count x => count + h x) l 0.
Proof.
  revert a. induction l as [|x l IH]; intros a; cbn [fold_left]; [lia|].
  rewrite (IH (a + h x)), (IH (0 + h x)). lia.
Qed.

Lemma fold_sum_nonneg {A : Type} (h : A -> Z) (l : list A) :
  Forall (fun x => 0 <= h x) l ->
  0 <= fold_left (fun count x => count + h x) l 0.
Proof.
  induction 1 as [|x l Hx _ IH]; cbn [fold_left]; [lia|]. rewrite fold_sum. lia.
Qed.

Lemma countBelow_nonneg (f : folder) : 0 <= countBelow f.
Proof.
  revert f. fix countBelow_nonneg 1. intros f.
  destruct f as [id name path type [subs|]]; [|simpl; lia].
  cbn [countBelow]. rewrite fold_sum.
  assert (H : Forall (fun x => 0 <= countBelow x) subs).
  { induction subs as [|s subs IH]; constructor;
      [apply countBelow_nonneg | exact IH]. }
  pose proof (fold_sum_nonneg countBelow subs H). lia.
Qed.

Lemma countFoldersRecursive_cons (f : folder) (folders : list folder) :
  countFoldersRecursive (f :: folders)
  = 1 + countBelow f + countFoldersRecursive folders.
Proof.
  unfold countFoldersRecursive. cbn [fold_left length].
  rewrite fold_sum, (fold_sum _ folders (Z.of_nat _)). lia.
Qed.

Lemma countFoldersRecursive_nonneg (folders : list folder) :
  0 <= countFoldersRecursive folders.
Proof.
  induction folders as [|f folders IH]; [unfold countFoldersRecursive; simpl; lia|].
  rewrite countFoldersRecursive_cons. pose proof (countBelow_nonneg f). lia.
Qed.

Lemma countFolders_from (folders : list folder) (skipTypes : list string)
  (a : Z) :
  fold_left
    (fun count f =>
       if negb (includesType skipTypes (folderType f))
       then count + 1 + countBelow f
       else count)
    folders a
  = a + countFoldersRecursive
          (filter (fun f => negb (includesType skipTypes (folderType f)))
                  folders).
Proof.
  revert a. induction folders as [|f folders IH]; intros a.
  - unfold countFoldersRecursive. simpl. lia.
  - cbn [fold_left filter]. rewrite IH.
    destruct (negb (includesType skipTypes (folderType f))); [|reflexivity].
    rewrite countFoldersRecursive_cons. lia.
Qed.

Lemma countFoldersRecursive_filter (p : folder -> bool) (folders : list folder) :
  countFoldersRecursive (filter p folders) <= countFoldersRecursive folders.
Proof.
  induction folders as [|f folders IH]; [simpl; lia|].
  cbn [filter]. pose proof (countBelow_nonneg f).
  pose proof (countFoldersRecursive_nonneg (filter p folders)).
  destruct (p f); rewrite ?countFoldersRecursive_cons; lia.
Qed.

(** X23. [countFolders] counts the top-level folders whose type is not in
    the skip list together with all folders below them, whatever the types
    of those: it is [countFoldersRecursive] of the top-level folders that
    are kept.  So it never exceeds [countFoldersRecursive] of all folders,
    and equals it when the skip list is empty. *)
Theorem countFolders_kept (folders : list folder) (skipTypes : list string) :
  countFolders folders skipTypes
  = countFoldersRecursive
      (filter (fun f => negb (includesType skipTypes (folderType f))) folders)
  /\ 0 <= countFolders folders skipTypes <= countFoldersRecursive folders
  /\ countFolders folders [] = countFoldersRecursive folders.
Proof.
  assert (H : forall skip, countFolders folders skip
              = countFoldersRecursive
                  (filter (fun f => negb (includesType skip (folderType f)))
                          folders)).
  { intros skip. unfold countFolders. rewrite countFolders_from. lia. }
  split; [apply H|]. split.
  - rewrite H. split; [apply countFoldersRecursive_nonneg|].
    apply countFoldersRecursive_filter.
  - rewrite H. f_equal. clear H.
    induction folders as [|f folders IH]; [reflexivity|].
    cbn [filter]. destruct (folderType f); simpl; rewrite IH; reflexivity.
Qed.

Example countFolders_example :
  let inbox := Folder "1" "Inbox" "/Inbox" (Some "inbox")
                 (Some [Folder "2" "Old" "/Inbox/Old" None None;
                        Folder "3" "Drafts" "/Inbox/Drafts" (Some "drafts") None]) in
  let junk := Folder "4" "Junk" "/Junk" (Some "junk")
                 (Some [Folder "5" "Sub" "/Junk/Sub" None None]) in
  countFolders [inbox; junk] ["junk"; "trash"; "sent"; "drafts"; "outbox"]%string = 3
  /\ countFoldersRecursive [inbox; junk] = 5.
Proof. split; reflexivity. Qed.




(** ** [checkAndMoveMessage] *)

Ltac no_moves :=
  cbn [Run.stats Run.effects]; unfold movesIn; cbn [filter length];
  split; [reflexivity|]; split; [lia|]; split; [lia|]; intros ? ? [].

Lemma moveToSpamFolder_moves (s : Settings.t) (w : World.t)
  (message : Message.t) (stats : Stats.t) (title text : string) :
  let run := moveToSpamFolder s w message stats title text in
  Stats.scannedCount (Run.stats run) = Stats.scannedCount stats
  /\ Stats.movedCount (Run.stats run)
     = Stats.movedCount stats + movesIn (Run.effects run)
  /\ movesIn (Run.effects run) <= 1
  /\ forall id path, In (Move id path) (Run.effects run) ->
       id = Message.id message
       /\ World.spamFolder w = Found path
       /\ path <> Message.folderPath message.
Proof.
  cbv zeta. unfold moveToSpamFolder.
  destruct (World.spamFolder w) as [path| |]; [|no_moves|no_moves].
  destruct (String.eqb_spec (Message.folderPath message) path) as [Heq|Hne];
    [no_moves|].
  destruct (World.moveSucceeds w); cbn [negb]; [|no_moves].
  assert (Hin : forall tail id p,
             Forall (fun e => isMove e = false) tail ->
             In (Move id p) (Move (Message.id message) path :: tail) ->
             id = Message.id message /\ Found path = Found p
             /\ p <> Message.folderPath message).
  { intros tail id p Htail [H|H].
    - injection H as <- <-. split; [reflexivity|]. split; [reflexivity|].
      congruence.
    - rewrite Forall_forall in Htail. specialize (Htail _ H). discriminate. }
  destruct (World.saveStatsSucceeds w); cbn [negb Run.stats Run.effects
    Stats.scannedCount Stats.movedCount].
  - destruct (Settings.notifyOnMove s); unfold movesIn; cbn [app filter isMove length];
      (split; [reflexivity|]); (split; [lia|]); (split; [lia|]);
      intros id p H; apply (Hin _ id p) in H; try tauto;
      repeat constructor.
  - unfold movesIn; cbn [app filter isMove length].
    split; [reflexivity|]. split; [lia|]. split; [lia|].
    intros id p H. apply (Hin [] id p) in H; [tauto | constructor].
Qed.

Section CheckAndMoveMessageFacts.

Variable toFixed4 : R -> string.
Variable percent : R -> string.

(** X25. A collect-only check (the one every scan uses) never touches the
    mailbox: it performs no effect at all, moves nothing and leaves the
    move counter alone, whatever the headers, the classifier and the mail
    client do; its verdict does not depend on the spam-folder lookup. *)
Theorem checkAndMoveMessage_collect_only
  (s : Settings.t) (classifier : model) (w : World.t) (message : Message.t)
  (stats : Stats.t) :
  let out := checkAndMoveMessage toFixed4 percent s classifier w message true stats in
  effectsOf out = []
  /\ Stats.movedCount (statsOf out) = Stats.movedCount stats
  /\ Stats.scannedCount (statsOf out)
     = Stats.scannedCount stats + (if Settings.enabled s then 1 else 0)
  /\ forall lookup moveOk saveOk,
       verdictOf
         (checkAndMoveMessage toFixed4 percent s classifier
            (World.make (World.fullForHeaders w) (World.fullForBody w)
                        lookup moveOk saveOk)
            message true stats)
       = verdictOf out.
Proof.
  cbv zeta. unfold checkAndMoveMessage, verdictOf, statsOf, effectsOf.
  cbn [World.fullForHeaders World.fullForBody negb andb].
  destruct (Settings.enabled s); cbn [negb].
  2: { cbn. repeat split. lia. }
  destruct (hasSpamHeader _).
  - cbn. repeat split.
  - destruct (Settings.useMLClassifier s && isTrained classifier).
    2: { cbn. repeat split. }
    destruct (_ && _); cbn; repeat split.
Qed.



(** X26. The move counter and the mailbox stay in step: a check moves at
    most one message and raises the counter by exactly the number of moves
    it made, also when something fails on the way.  A message is moved only
    by a check that is not collect-only, with the add-on enabled, into the
    folder that the lookup found and that is not the message's own folder,
    and only for a spam header or for a classifier verdict "spam" whose
    score reaches both thresholds while auto-scan is on. *)
Theorem checkAndMoveMessage_moves
  (s : Settings.t) (classifier : model) (w : World.t) (message : Message.t)
  (collectOnly : bool) (stats : Stats.t) :
  let out := checkAndMoveMessage toFixed4 percent s classifier w message collectOnly stats in
  let prediction := predict classifier (emailOf w message) in
  Stats.movedCount (statsOf out)
  = Stats.movedCount stats + movesIn (effectsOf out)
  /\ movesIn (effectsOf out) <= 1
  /\ forall id path, In (Move id path) (effectsOf out) ->
       collectOnly = false
       /\ Settings.enabled s = true
       /\ id = Message.id message
       /\ World.spamFolder w = Found path
       /\ path <> Message.folderPath message
       /\ (hasSpamHeader (getMessageHeaders (World.fullForHeaders w)) = true
           \/ (Settings.useMLClassifier s = true
               /\ isTrained classifier = true
               /\ Settings.autoScan s = true
               /\ Prediction.label prediction = "spam"%string
               /\ spamScoreReaches prediction (Settings.mlThreshold s) = true
               /\ spamScoreReaches prediction (autoMoveThresholdOf s) = true)).
Proof.
  cbv zeta. unfold checkAndMoveMessage, statsOf, effectsOf.
  fold (emailOf w message).
  set (prediction := predict classifier (emailOf w message)).
  set (stats1 := Stats.make (Stats.scannedCount stats + 1)
                            (Stats.movedCount stats)).
  assert (Hnone : forall st : Stats.t,
             Stats.movedCount st = Stats.movedCount stats ->
             Stats.movedCount st = Stats.movedCount stats + movesIn []
             /\ movesIn [] <= 1
             /\ forall id path, In (Move id path) [] -> False).
  { intros st Hst. unfold movesIn. simpl. repeat split; try lia. }
  assert (Hrun : forall title text (P : Prop),
             P ->
             let run := moveToSpamFolder s w message stats1 title text in
             Stats.movedCount (Run.stats run)
             = Stats.movedCount stats + movesIn (Run.effects run)
             /\ movesIn (Run.effects run) <= 1
             /\ forall id path, In (Move id path) (Run.effects run) ->
                  id = Message.id message
                  /\ World.spamFolder w = Found path
                  /\ path <> Message.folderPath message /\ P).
  { intros title text P HP. cbv zeta.
    destruct (moveToSpamFolder_moves s w message stats1 title text)
      as (_ & Hm & Hle & Hin).
    split; [exact Hm|]. split; [exact Hle|].
    intros id path H. destruct (Hin id path H) as (H1 & H2 & H3). tauto. }
  destruct (Settings.enabled s) eqn:Een; cbn [negb fst snd].
  2: { destruct (Hnone stats eq_refl) as (Ha & Hb & Hf).
       split; [exact Ha|]. split; [exact Hb|].
       intros id path H. destruct (Hf id path H). }
  destruct (hasSpamHeader _) eqn:Eh.
  - destruct collectOnly; cbn [negb].
    + cbn [Run.threw Run.stats Run.effects fst snd].
      destruct (Hnone stats1 eq_refl) as (Ha & Hb & Hf).
      split; [exact Ha|]. split; [exact Hb|].
      intros id path H. destruct (Hf id path H).
    + destruct (Hrun "Spam Detected (Header)"%string
                  (String.append "Moved: "
                     (orString (Message.subject message) "(No subject)"))
                  True I) as (Hm & Hle & Hin).
      destruct (Run.threw _); cbn [fst snd];
        (split; [exact Hm|]); (split; [exact Hle|]);
        intros id path H; destruct (Hin id path H) as (H1 & H2 & H3 & _);
        repeat split; auto.
  - destruct (Settings.useMLClassifier s) eqn:Eml; cbn [andb].
    2: { cbn [fst snd]. destruct (Hnone stats1 eq_refl) as (Ha & Hb & Hf).
         split; [exact Ha|]. split; [exact Hb|].
         intros id path H. destruct (Hf id path H). }
    destruct (isTrained classifier) eqn:Et.
    2: { cbn [fst snd]. destruct (Hnone stats1 eq_refl) as (Ha & Hb & Hf).
         split; [exact Ha|]. split; [exact Hb|].
         intros id path H. destruct (Hf id path H). }
    destruct (String.eqb_spec (Prediction.label prediction) "spam")
      as [Elabel|_]; cbn [andb].
    2: { cbn [fst snd]. destruct (Hnone stats1 eq_refl) as (Ha & Hb & Hf).
         split; [exact Ha|]. split; [exact Hb|].
         intros id path H. destruct (Hf id path H). }
    destruct (spamScoreReaches prediction (Settings.mlThreshold s)) eqn:Eth.
    2: { cbn [fst snd]. destruct (Hnone stats1 eq_refl) as (Ha & Hb & Hf).
         split; [exact Ha|]. split; [exact Hb|].
         intros id path H. destruct (Hf id path H). }
    destruct collectOnly; cbn [negb andb].
    { cbn [Run.threw Run.stats Run.effects fst snd].
      destruct (Hnone stats1 eq_refl) as (Ha & Hb & Hf).
      split; [exact Ha|]. split; [exact Hb|].
      intros id path H. destruct (Hf id path H). }
    destruct (Settings.autoScan s) eqn:Eauto; cbn [andb].
    2: { cbn [Run.threw Run.stats Run.effects fst snd].
         destruct (Hnone stats1 eq_refl) as (Ha & Hb & Hf).
         split; [exact Ha|]. split; [exact Hb|].
         intros id path H. destruct (Hf id path H). }
    destruct (spamScoreReaches prediction (autoMoveThresholdOf s)) eqn:Eam.
    2: { cbn [Run.threw Run.stats Run.effects fst snd].
         destruct (Hnone stats1 eq_refl) as (Ha & Hb & Hf).
         split; [exact Ha|]. split; [exact Hb|].
         intros id path H. destruct (Hf id path H). }
    match goal with
    | |- context [moveToSpamFolder s w message stats1 ?title ?text] =>
        destruct (Hrun title text True I) as (Hm & Hle & Hin)
    end.
    destruct (Run.threw _); cbn [fst snd];
      (split; [exact Hm|]); (split; [exact Hle|]);
      intros id path H; destruct (Hin id path H) as (H1 & H2 & H3 & _);
      repeat split; auto; right; repeat split; auto.
Qed.



End CheckAndMoveMessageFacts.


Example checkAndMoveMessage_header_example :
  checkAndMoveMessage (fun _ => ""%string) (fun _ => ""%string)
    defaultSettings newModel headerSpamWorld inboxMessage false (Stats.make 0 0)
  = (Verdict.make true (Some "header"%string) (Some 1%R) (Some []),
     Stats.make 1 1,
     [Move 7 "/Junk"; SaveStats;
      Notify "Spam Detected (Header)" "Moved: Hi"]).
Proof. reflexivity. Qed.

(** ** The order of the training list *)

Local Open Scope R_scope.

Lemma sameScoring_logProbs (m m' : model) (features : list string) :
  sameScoring m m' -> logProbs m features = logProbs m' features.
Proof.
  intros (Ha & _ & Hn & Hd & Ht & Hv & Hw).
  assert (Hvs : vocabSize m = vocabSize m')
    by (unfold vocabSize; rewrite Hv; reflexivity).
  assert (Hprior : forall l, priorProb m l = priorProb m' l)
    by (intros l; unfold priorProb; rewrite Ha, Hn, Hd; reflexivity).
  assert (Hterm : forall l w, featureTerm m l w = featureTerm m' l w).
  { intros l w. destruct (Hw w) as (Hhas & Hdf & Hcount).
    unfold featureTerm, wordProb, idf. unfold recordedDf in Hdf.
    rewrite Hhas, (Hcount l), Ht, Ha, Hvs, Hdf, Hn. reflexivity. }
  assert (Hterms : forall l, featureTerms m l features
                             = featureTerms m' l features).
  { intros l. unfold featureTerms.
    induction features as [|w ws IH]; simpl; [reflexivity|].
    rewrite Hterm, IH. reflexivity. }
  unfold logProbs. rewrite !logProb_closed, !Hprior, !Hterms. reflexivity.
Qed.

Lemma sameScoring_predict (m m' : model) (x : input) :
  sameScoring m m' -> predict m x = predict m' x.
Proof.
  intros H. pose proof (sameScoring_logProbs m m' (inputFeatures x) H) as Hlp.
  destruct H as (_ & Ht & _). unfold predict, predictFeatures.
  rewrite Ht, Hlp. reflexivity.
Qed.

Local Close Scope R_scope.

Lemma filter_length_Permutation {A : Type} (f : A -> bool) (l l' : list A) :
  Permutation l l' -> length (filter f l) = length (filter f l').
Proof.
  induction 1 as [| x a b _ IH | x y a | a b c _ IH1 _ IH2]; simpl.
  - reflexivity.
  - destruct (f x); simpl; rewrite IH; reflexivity.
  - destruct (f x), (f y); reflexivity.
  - rewrite IH1. exact IH2.
Qed.

Lemma perClass_ext {A : Type} (a b : perClass A) :
  (forall l, at_label a l = at_label b l) -> a = b.
Proof.
  intros H. destruct a as [a1 a2], b as [b1 b2].
  pose proof (H Spam) as H1. pose proof (H Ham) as H2. simpl in H1, H2.
  subst. reflexivity.
Qed.

Lemma isTrained_train (corpus : list Item.t) (m : model) :
  isTrained (train corpus m)
  = match corpus with [] => isTrained m | _ :: _ => true end.
Proof. destruct corpus; reflexivity. Qed.

Lemma train_vocabulary_has_all (corpus : list Item.t) (m : model) (w : string) :
  JsMap.has w (vocabulary (train corpus m))
  = JsMap.has w (documentFrequency (train corpus m))
    && (minDf m <=? recordedDf (train corpus m) w)%Z.
Proof.
  destruct corpus as [|item corpus]; [reflexivity|].
  rewrite train_vocabulary_has.
  destruct (train_config (item :: corpus) m) as (_ & -> & _). reflexivity.
Qed.

Lemma In_entries_get {V : Type} (m : JsMap.t V) (k : string) (v : V) :
  distinctKeys m -> (In (k, v) m <-> JsMap.get k m = Some v).
Proof. intros Hm. split; [apply In_get, Hm | apply get_In]. Qed.

Lemma train_df_Permutation (corpus corpus' : list Item.t) (m : model) :
  Permutation corpus corpus' ->
  Permutation (documentFrequency (train corpus m))
              (documentFrequency (train corpus' m)).
Proof.
  intros Hp.
  destruct (train_wellFormed corpus m) as (_ & Hd & _).
  destruct (train_wellFormed corpus' m) as (_ & Hd' & _).
  apply NoDup_Permutation.
  - exact (NoDup_map_inv fst _ Hd).
  - exact (NoDup_map_inv fst _ Hd').
  - intros [k v]. rewrite (In_entries_get _ k v Hd), (In_entries_get _ k v Hd').
    rewrite !train_get_df. unfold documentsContaining.
    rewrite (filter_length_Permutation _ _ _ Hp). reflexivity.
Qed.

Lemma train_sameScoring (corpus corpus' : list Item.t) (m : model) :
  Permutation corpus corpus' ->
  sameScoring (train corpus m) (train corpus' m).
Proof.
  intros Hp. unfold sameScoring.
  destruct (train_config corpus m) as (Ha & Hmin & Hn).
  destruct (train_config corpus' m) as (Ha' & Hmin' & Hn').
  assert (Hdf : forall w, recordedDf (train corpus m) w
                          = recordedDf (train corpus' m) w).
  { intros w. unfold recordedDf, getOr0. rewrite !train_get_df.
    unfold documentsContaining.
    rewrite (filter_length_Permutation _ _ _ Hp). reflexivity. }
  assert (Hhasdf : forall w,
             JsMap.has w (documentFrequency (train corpus m))
             = JsMap.has w (documentFrequency (train corpus' m))).
  { intros w. unfold JsMap.has. rewrite !train_get_df.
    unfold documentsContaining.
    rewrite (filter_length_Permutation _ _ _ Hp). reflexivity. }
  split; [congruence|]. split.
  { rewrite !isTrained_train. destruct corpus, corpus'; try reflexivity.
    - apply Permutation_nil in Hp. discriminate.
    - apply Permutation_sym, Permutation_nil in Hp. discriminate. }
  split; [rewrite Hn, Hn', (Permutation_length Hp); reflexivity|].
  split.
  { apply perClass_ext. intros l.
    rewrite (proj2 (proj2 (train_class corpus m l))),
      (proj2 (proj2 (train_class corpus' m l))).
    unfold classDocuments.
    rewrite (filter_length_Permutation _ _ _ Hp). reflexivity. }
  split.
  { apply perClass_ext. intros l.
    rewrite (proj1 (proj2 (train_class corpus m l))),
      (proj1 (proj2 (train_class corpus' m l))).
    unfold classFeatures.
    rewrite (Permutation_length (Permutation_flat_map _ Hp)). reflexivity. }
  split.
  { unfold JsMap.size. f_equal.
    rewrite <- (length_map fst (vocabulary (train corpus m))),
      <- (length_map fst (vocabulary (train corpus' m))).
    fold (JsMap.keys (vocabulary (train corpus m))).
    fold (JsMap.keys (vocabulary (train corpus' m))).
    rewrite !train_vocabulary_eq, !numbered_keys.
    unfold JsMap.keys, frequentEntries, JsMap.entries.
    rewrite !length_map, Hmin, Hmin'.
    apply filter_length_Permutation, train_df_Permutation, Hp. }
  intros w. split.
  { rewrite !train_vocabulary_has_all, Hhasdf, Hdf. reflexivity. }
  split; [apply Hdf|]. intros l.
  rewrite (proj1 (train_class corpus m l)), (proj1 (train_class corpus' m l)).
  rewrite !increments_getOr0. unfold occurrences, classFeatures.
  rewrite (filter_length_Permutation _ _ _ (Permutation_flat_map _ Hp)).
  reflexivity.
Qed.

(** X28. The training data are shuffled at random before [train] is
    called; the shuffle cannot change an answer: two training lists that
    are permutations of each other give models that predict alike on every
    input (the order of the entries in their maps may differ). *)
Theorem train_order_irrelevant
  (corpus corpus' : list Item.t) (m : model) (x : input) :
  Permutation corpus corpus' ->
  predict (train corpus m) x = predict (train corpus' m) x.
Proof. intros Hp. apply sameScoring_predict, train_sameScoring, Hp. Qed.

Lemma train_order_irrelevant_witness :
  predict (train [Item.make Spam None (Some "aa");
                  Item.make Ham None (Some "aa bb")] newModel) (Text "aa bb")
  = predict (train [Item.make Ham None (Some "aa bb");
                    Item.make Spam None (Some "aa")] newModel) (Text "aa bb").
Proof.
  apply (train_order_irrelevant
           [Item.make Spam None (Some "aa"); Item.make Ham None (Some "aa bb")]
           [Item.make Ham None (Some "aa bb"); Item.make Spam None (Some "aa")]
           newModel (Text "aa bb")).
  apply perm_swap.
Defined.

(** ** [collectTrainingDataFromFolder] *)

Local Open Scope Z_scope.

Lemma collectMessages_from (label : label) (maxSamples : Z)
  (page : list listedMessage) (samples : list Item.t) (count : Z) :
  fold_left (collectMessage label maxSamples) page (samples, count)
  = (samples
     ++ map (sampleOf label) (firstn (Z.to_nat (maxSamples - count)) page),
     count + Z.of_nat (length (firstn (Z.to_nat (maxSamples - count)) page))).
Proof.
  revert samples count. induction page as [|listed page IH]; intros samples count.
  - rewrite firstn_nil. simpl. rewrite app_nil_r. f_equal. lia.
  - cbn [fold_left collectMessage].
    destruct (Z.leb_spec maxSamples count) as [Hle|Hlt].
    + rewrite IH. replace (Z.to_nat (maxSamples - count)) with O by lia.
      simpl. reflexivity.
    + rewrite IH.
      replace (Z.to_nat (maxSamples - count))
        with (S (Z.to_nat (maxSamples - (count + 1)))) by lia.
      cbn [firstn map length]. rewrite <- app_assoc. simpl. f_equal. lia.
Qed.

Lemma collectPages_from (pages : list (list listedMessage)) (label : label)
  (maxSamples : Z) (samples : list Item.t) (count : Z) :
  collectPages pages label maxSamples samples count
  = samples
    ++ map (sampleOf label)
           (firstn (Z.to_nat (maxSamples - count)) (concat pages)).
Proof.
  revert samples count. induction pages as [|page rest IH]; intros samples count.
  - simpl. rewrite firstn_nil, app_nil_r. reflexivity.
  - cbn [collectPages concat].
    destruct (Z.ltb_spec count maxSamples) as [Hlt|Hge].
    2: { replace (Z.to_nat (maxSamples - count)) with O by lia.
         simpl. rewrite app_nil_r. reflexivity. }
    rewrite collectMessages_from.
    set (k := Z.to_nat (maxSamples - count)).
    rewrite firstn_app, map_app, app_assoc.
    pose proof (length_firstn k page) as Hlen.
    destruct rest as [|page' rest'].
    + simpl concat. rewrite firstn_nil. simpl. rewrite app_nil_r. reflexivity.
    + destruct (Z.ltb_spec (count + Z.of_nat (length (firstn k page)))
                           maxSamples) as [Hlt'|Hge'].
      * rewrite IH. f_equal. f_equal. f_equal. lia.
      * replace (k - length page)%nat with O by lia.
        simpl. rewrite app_nil_r. reflexivity.
Qed.

Lemma sampleOf_processed (label : label) (listed : listedMessage) :
  processed (sampleOf label listed) = true
  /\ Item.label (sampleOf label listed) = label.
Proof. split; reflexivity. Qed.

(** X29. [collectTrainingDataFromFolder] returns the samples of the first
    [maxSamples] messages of the folder, in the order of the pages, and so
    never more than [maxSamples]; every sample carries the requested label
    and an email record, so [train] skips none of them. *)
Theorem collectTrainingDataFromFolder_samples
  (pages : list (list listedMessage)) (label : label) (maxSamples : Z) :
  let samples := collectTrainingDataFromFolder pages label maxSamples in
  samples
  = map (sampleOf label) (firstn (Z.to_nat maxSamples) (concat pages))
  /\ Z.of_nat (length samples) <= Z.max 0 maxSamples
  /\ forallb processed samples = true
  /\ Forall (fun item => Item.label item = label) samples.
Proof.
  cbv zeta. unfold collectTrainingDataFromFolder.
  rewrite collectPages_from, Z.sub_0_r, app_nil_l.
  split; [reflexivity|]. split; [|split].
  - rewrite length_map.
    pose proof (firstn_le_length (Z.to_nat maxSamples) (concat pages)). lia.
  - apply forallb_forall. intros item Hin. apply in_map_iff in Hin.
    destruct Hin as (listed & <- & _). reflexivity.
  - apply Forall_forall. intros item Hin. apply in_map_iff in Hin.
    destruct Hin as (listed & <- & _). reflexivity.
Qed.

(** ** The sampling loops of [trainFromMailboxFolders] *)

Lemma collect_length (pages : list (list listedMessage)) (label : label)
  (maxSamples : Z) :
  Z.of_nat (length (collectTrainingDataFromFolder pages label maxSamples))
  <= Z.max 0 maxSamples.
Proof.
  unfold collectTrainingDataFromFolder.
  rewrite collectPages_from, Z.sub_0_r, app_nil_l, length_map.
  pose proof (firstn_le_length (Z.to_nat maxSamples) (concat pages)). lia.
Qed.

Lemma collect_items (pages : list (list listedMessage)) (label : label)
  (maxSamples : Z) (item : Item.t) :
  In item (collectTrainingDataFromFolder pages label maxSamples) ->
  processed item = true /\ Item.label item = label.
Proof.
  unfold collectTrainingDataFromFolder.
  rewrite collectPages_from, app_nil_l. intros Hin.
  apply in_map_iff in Hin. destruct Hin as (listed & <- & _).
  apply sampleOf_processed.
Qed.

Lemma collectClass_invariant (folders : list (list (list listedMessage)))
  (label : label) (maxTotal perFolder : Z) :
  let samples := collectClass folders label maxTotal perFolder in
  Z.of_nat (length samples) <= Z.max 0 maxTotal
  /\ forall item, In item samples ->
                  processed item = true /\ Item.label item = label.
Proof.
  cbv zeta. unfold collectClass.
  assert (H : forall acc,
             (Z.of_nat (length acc) <= Z.max 0 maxTotal
              /\ forall item, In item acc ->
                              processed item = true /\ Item.label item = label) ->
             let samples :=
               fold_left
                 (fun samples folder =>
                    if maxTotal <=? Z.of_nat (length samples) then samples
                    else samples
                         ++ collectTrainingDataFromFolder folder label
                              (Z.min perFolder
                                     (maxTotal - Z.of_nat (length samples))))
                 folders acc in
             Z.of_nat (length samples) <= Z.max 0 maxTotal
             /\ forall item, In item samples ->
                             processed item = true /\ Item.label item = label).
  { induction folders as [|folder folders IH]; intros acc Hacc; [exact Hacc|].
    cbn [fold_left]. apply IH. destruct Hacc as [Hlen Hitems].
    destruct (Z.leb_spec maxTotal (Z.of_nat (length acc))) as [Hfull|Hroom];
      [split; assumption|].
    split.
    - rewrite length_app.
      pose proof (collect_length folder label
                    (Z.min perFolder (maxTotal - Z.of_nat (length acc)))).
      lia.
    - intros item Hin. apply in_app_or in Hin. destruct Hin as [Hin|Hin];
        [exact (Hitems item Hin) | exact (collect_items _ _ _ _ Hin)]. }
  apply H. split; [simpl; lia | intros item []].
Qed.

(** X30. The two sampling loops never collect more spam samples than the
    configured maximum per class (500 when the setting is missing or 0) and
    never more ham samples than spam samples; every sample has the label of
    its loop and an email record, so after [train] on the collected samples
    the two document counts are the two sample counts. *)
Theorem collectBalanced_counts
  (spamFolders inboxFolders : list (list (list listedMessage)))
  (maxTrainingSamples : option Z) (m0 : model) :
  let spamSamples :=
    fst (collectBalanced spamFolders inboxFolders maxTrainingSamples) in
  let hamSamples :=
    snd (collectBalanced spamFolders inboxFolders maxTrainingSamples) in
  let maxPerClass :=
    match maxTrainingSamples with
    | Some v => if v =? 0 then 500 else v
    | None => 500
    end in
  Z.of_nat (length spamSamples) <= Z.max 0 maxPerClass
  /\ (length hamSamples <= length spamSamples)%nat
  /\ Forall (fun item => Item.label item = Spam) spamSamples
  /\ Forall (fun item => Item.label item = Ham) hamSamples
  /\ classDocCount (train (spamSamples ++ hamSamples) m0)
     = PerClass (Z.of_nat (length spamSamples)) (Z.of_nat (length hamSamples)).
Proof.
  cbv zeta. unfold collectBalanced. cbn [fst snd].
  set (maxPerClass := match maxTrainingSamples with
                      | Some v => if v =? 0 then 500 else v
                      | None => 500
                      end).
  set (spamSamples := collectClass spamFolders Spam maxPerClass _).
  set (hamSamples := collectClass inboxFolders Ham _ _).
  destruct (collectClass_invariant spamFolders Spam maxPerClass
              (ceilDiv maxPerClass (Z.max (Z.of_nat (length spamFolders)) 1)))
    as [Hslen Hsitems].
  destruct (collectClass_invariant inboxFolders Ham
              (Z.of_nat (length spamSamples))
              (ceilDiv (Z.of_nat (length spamSamples))
                       (Z.max (Z.of_nat (length inboxFolders)) 1)))
    as [Hhlen Hhitems].
  fold spamSamples in Hslen, Hsitems. fold hamSamples in Hhlen, Hhitems.
  split; [exact Hslen|]. split; [lia|].
  split; [apply Forall_forall; intros item Hin; apply (Hsitems item Hin)|].
  split; [apply Forall_forall; intros item Hin; apply (Hhitems item Hin)|].
  apply perClass_ext. intros l.
  rewrite (proj2 (proj2 (train_class (spamSamples ++ hamSamples) m0 l))).
  unfold classDocuments. rewrite filter_app, length_app.
  assert (Hcount : forall (lab : label) (items : list Item.t),
             (forall item, In item items ->
                           processed item = true /\ Item.label item = lab) ->
             length (filter (fun item => processed item
                                         && labelEqb (Item.label item) l) items)
             = if labelEqb lab l then length items else O).
  { intros lab items Hitems. induction items as [|item items IH].
    - destruct (labelEqb lab l); reflexivity.
    - cbn [filter].
      destruct (Hitems item (or_introl eq_refl)) as [Hproc Hlab].
      rewrite Hproc, Hlab. cbn [andb].
      assert (IH' := IH (fun i Hi => Hitems i (or_intror Hi))).
      destruct (labelEqb lab l); cbn [length]; rewrite IH'; reflexivity. }
  rewrite (Hcount Spam _ Hsitems), (Hcount Ham _ Hhitems).
  destruct l; simpl; lia.
Qed.

Example collectBalanced_example :
  let message := (Message.make 1 (Some "a@b.c") (Some "hi") "/x", None) in
  collectBalanced [[[message; message; message]]] [[[message]]] (Some 2)
  = ([sampleOf Spam message; sampleOf Spam message], [sampleOf Ham message]).
Proof. reflexivity. Qed.
